(** * A verified model of the environment store of go-rriclient

    Source: [internal/env/environment.go].  The store keeps one encrypted
    record file per environment in a per-user directory, plus an ordering
    file [env-order] that records the most recently used order and can be
    pinned.

    The development is organised as follows:
    - [Str]: the string primitives the code uses ([strings.HasSuffix],
      concatenation);
    - [Filepath]: [filepath.Clean] and [filepath.Join] on Unix paths;
    - [Sort]: [sort.SliceStable];
    - [OS]: the world the code runs in (files, console, system calls that
      may fail) and a state monad over it;
    - [Env]: the translation of [environment.go] and the theorems about it,
      for arbitrary codecs and handlers;
    - [Demo]: a concrete codec and concrete stores, on which the model is
      run and the theorems are instantiated. *)

From Stdlib Require Import ZArith Ascii String List Lia Bool Sorting.Permutation Sorting.Sorted.
From stdpp Require Import base option gmap strings list fin_maps.

Local Open Scope string_scope.
Local Open Scope list_scope.

(* ===================================================================== *)
(** * Strings *)
(* ===================================================================== *)

Module Str.

(** Equations of [++] on strings, stated once so proofs can rewrite with
    them. *)
Lemma app_nil_l (t : string) : "" +:+ t = t.
Proof. reflexivity. Qed.

Lemma app_cons (a : ascii) (s t : string) :
  String a s +:+ t = String a (s +:+ t).
Proof. reflexivity. Qed.

Lemma app_nil_r (s : string) : s +:+ "" = s.
Proof. induction s as [|a s IH]; [reflexivity|]. by rewrite app_cons, IH. Qed.

Lemma app_assoc (s t u : string) : (s +:+ t) +:+ u = s +:+ (t +:+ u).
Proof.
  induction s as [|a s IH]; [reflexivity|].
  by rewrite !app_cons, IH.
Qed.

Lemma length_app (s t : string) :
  String.length (s +:+ t) = String.length s + String.length t.
Proof.
  induction s as [|a s IH]; [reflexivity|].
  rewrite app_cons. simpl. by rewrite IH.
Qed.

Lemma substring_app_r (s t : string) :
  substring (String.length s) (String.length t) (s +:+ t) = t.
Proof.
  induction s as [|a s IH].
  - rewrite app_nil_l. simpl.
    induction t as [|b t IHt]; [reflexivity|]. simpl. by rewrite IHt.
  - rewrite app_cons. simpl. exact IH.
Qed.

Lemma substring_full (n : nat) (s : string) :
  n = String.length s -> substring 0 n s = s.
Proof.
  intros ->. induction s as [|a s IH]; [reflexivity|]. simpl. by rewrite IH.
Qed.

Lemma substring_skip (s t : string) (m : nat) :
  substring (String.length s) m (s +:+ t) = substring 0 m t.
Proof.
  induction s as [|a s IH]; [by rewrite app_nil_l|].
  rewrite app_cons. simpl. exact IH.
Qed.

Lemma substring_split (n : nat) (s : string) :
  n <= String.length s ->
  s = substring 0 n s +:+ substring n (String.length s - n) s.
Proof.
  revert s. induction n as [|n IH]; intros s Hn.
  - simpl. rewrite Nat.sub_0_r.
    destruct s as [|a s]; [reflexivity|].
    rewrite app_nil_l. symmetry. by apply (substring_full _ (String a s)).
  - destruct s as [|a s]; simpl in Hn; [lia|].
    simpl. rewrite app_cons. f_equal. apply IH. lia.
Qed.

(** [strings.HasSuffix]:
    [len(s) >= len(suffix) && s[len(s)-len(suffix):] == suffix]. *)
Definition HasSuffix (s suffix : string) : bool :=
  Nat.leb (String.length suffix) (String.length s) &&
  String.eqb
    (substring (String.length s - String.length suffix)
               (String.length suffix) s)
    suffix.

Lemma HasSuffix_app (s t : string) : HasSuffix (s +:+ t) t = true.
Proof.
  unfold HasSuffix. rewrite length_app.
  apply andb_true_intro; split.
  - apply Nat.leb_le. lia.
  - replace (String.length s + String.length t - String.length t)
      with (String.length s) by lia.
    rewrite substring_app_r. apply String.eqb_refl.
Qed.

Lemma HasSuffix_inv (s t : string) :
  HasSuffix s t = true -> exists p, s = p +:+ t.
Proof.
  unfold HasSuffix. intros [Hlen Heq]%andb_prop.
  apply Nat.leb_le in Hlen. apply String.eqb_eq in Heq.
  exists (substring 0 (String.length s - String.length t) s).
  rewrite (substring_split (String.length s - String.length t) s) at 1 by lia.
  f_equal.
  replace (String.length s - (String.length s - String.length t))
    with (String.length t) by lia.
  exact Heq.
Qed.

(** Appending on the right is injective. *)
Lemma app_inj_r (s1 s2 t : string) : s1 +:+ t = s2 +:+ t -> s1 = s2.
Proof.
  revert s2. induction s1 as [|a s1 IH]; intros [|b s2] H.
  - reflexivity.
  - exfalso. apply (f_equal String.length) in H.
    rewrite app_nil_l, app_cons in H. simpl in H.
    rewrite length_app in H. lia.
  - exfalso. apply (f_equal String.length) in H.
    rewrite app_nil_l, app_cons in H. simpl in H.
    rewrite length_app in H. lia.
  - rewrite !app_cons in H. injection H as -> H. f_equal. by apply IH.
Qed.


(** Cutting a suffix off. *)
Lemma substring_app_l (s t : string) :
  substring 0 (String.length (s +:+ t) - String.length t) (s +:+ t) = s.
Proof.
  rewrite length_app.
  replace (String.length s + String.length t - String.length t)
    with (String.length s) by lia.
  induction s as [|a s IH].
  - rewrite app_nil_l. by destruct t.
  - rewrite app_cons. simpl. by rewrite IH.
Qed.

End Str.

(* ===================================================================== *)
(** * Paths: [path/filepath] on Unix *)
(* ===================================================================== *)

(** [filepath.Join] and [filepath.Clean] belong to Go's standard library.
    They are modelled here on path elements, following the documented rules
    of [Clean]: collapse repeated separators, drop [.] elements, cancel an
    inner [..] against the element before it, drop [..] at the root, and
    return [.] for an empty result. *)

Module Filepath.

Definition Separator : ascii := "/"%char.

(** The elements of a path: the runs of bytes between separators. *)
Fixpoint split (s : string) : list string :=
  match s with
  | EmptyString => [EmptyString]
  | String a s' =>
      if Ascii.eqb a Separator then EmptyString :: split s'
      else match split s' with
           | c :: cs => String a c :: cs
           | [] => [String a EmptyString]
           end
  end.

Fixpoint has_sep (s : string) : bool :=
  match s with
  | EmptyString => false
  | String a s' => Ascii.eqb a Separator || has_sep s'
  end.

(** One iteration of the loop of [Clean]; [out] is the output buffer, most
    recent element first. *)
Definition clean_step (rooted : bool) (out : list string) (elem : string)
  : list string :=
  if String.eqb elem "" then out
  else if String.eqb elem "." then out
  else if String.eqb elem ".." then
    match out with
    | top :: rest =>
        if String.eqb top ".." then (if rooted then out else elem :: out)
        else rest
    | [] => if rooted then [] else [elem]
    end
  else elem :: out.

Fixpoint join (elems : list string) : string :=
  match elems with
  | [] => ""
  | [c] => c
  | c :: cs => c +:+ "/" +:+ join cs
  end.

Definition is_rooted (path : string) : bool :=
  match path with
  | String a _ => Ascii.eqb a Separator
  | EmptyString => false
  end.

Definition Clean (path : string) : string :=
  if String.eqb path "" then "."
  else
    let rooted := is_rooted path in
    let out := fold_left (clean_step rooted) (split path) [] in
    if rooted then "/" +:+ join (rev out)
    else match out with
         | [] => "."
         | _ => join (rev out)
         end.

(** [filepath.Join(a, b)]: empty elements are ignored, the rest is joined
    with the separator and cleaned. *)
Definition Join (a b : string) : string :=
  if negb (String.eqb a "") then Clean (a +:+ "/" +:+ b)
  else if negb (String.eqb b "") then Clean b
  else "".

(** The last element of a path. *)
Definition last_elem (path : string) : string := List.last (split path) "".

(** An element that [Clean] copies to its output unchanged. *)
Definition plain (c : string) : Prop := c <> "" /\ c <> "." /\ c <> "..".

Example Clean_examples :
  Clean "a/c" = "a/c" /\ Clean "a//c" = "a/c" /\ Clean "a/c/." = "a/c" /\
  Clean "a/c/b/.." = "a/c" /\ Clean "/../a/c" = "/a/c" /\
  Clean "/../a/b/../././/c" = "/a/c" /\ Clean "" = "." /\
  Clean "../../x" = "../../x" /\ Clean "a/../.." = ".." /\ Clean "/" = "/".
Proof. repeat split; reflexivity. Qed.

Lemma split_nonempty (s : string) : split s <> [].
Proof.
  destruct s as [|a s]; simpl; [done|].
  destruct (Ascii.eqb a Separator); [done|]. by destruct (split s).
Qed.

Lemma split_app_sep (a b : string) :
  split (a +:+ "/" +:+ b) = (split a ++ split b)%list.
Proof.
  induction a as [|x a IH]; [reflexivity|].
  rewrite Str.app_cons. simpl. rewrite IH.
  destruct (Ascii.eqb x Separator); [reflexivity|].
  pose proof (split_nonempty a) as Hne.
  destruct (split a) as [|c cs]; [done|reflexivity].
Qed.

Lemma split_no_sep (c : string) : has_sep c = false -> split c = [c].
Proof.
  induction c as [|x c IH]; [reflexivity|].
  simpl. intros [Hx Hc]%orb_false_elim. rewrite Hx, (IH Hc). reflexivity.
Qed.

Lemma split_elems_no_sep (s c : string) : In c (split s) -> has_sep c = false.
Proof.
  revert c. induction s as [|x s IH]; intros c; simpl.
  - intros [<-|[]]. reflexivity.
  - destruct (Ascii.eqb x Separator) eqn:Hx.
    + intros [<-|Hin]; [reflexivity|]. by apply IH.
    + pose proof (split_nonempty s) as Hne.
      destruct (split s) as [|d ds]; [done|].
      intros [<-|Hin].
      * simpl. rewrite Hx. apply IH. by left.
      * apply IH. by right.
Qed.

(** Appending separator-free text extends the last element. *)
Lemma split_app_no_sep (s t : string) :
  has_sep t = false ->
  exists cs c, split s = (cs ++ [c])%list /\
               split (s +:+ t) = (cs ++ [c +:+ t])%list.
Proof.
  intros Ht. induction s as [|x s IH].
  - exists [], "". rewrite Str.app_nil_l. by rewrite (split_no_sep t Ht).
  - destruct IH as (cs & c & E1 & E2).
    rewrite Str.app_cons. simpl. rewrite E1, E2.
    destruct (Ascii.eqb x Separator).
    + by exists ("" :: cs), c.
    + destruct cs as [|d ds]; simpl.
      * by exists [], (String x c).
      * by exists (String x d :: ds), c.
Qed.

Lemma last_elem_app_no_sep (s t : string) :
  has_sep t = false -> last_elem (s +:+ t) = last_elem s +:+ t.
Proof.
  intros Ht. unfold last_elem.
  destruct (split_app_no_sep s t Ht) as (cs & c & -> & ->).
  by rewrite !List.last_last.
Qed.

Lemma join_snoc (l : list string) (c : string) :
  join (l ++ [c]) = match l with
                    | [] => c
                    | _ => join l +:+ "/" +:+ c
                    end.
Proof.
  induction l as [|d l IH]; [reflexivity|].
  change (join ((d :: l) ++ [c])) with (join (d :: (l ++ [c]))).
  assert (Hcons : forall x y ys, join (x :: y :: ys) = x +:+ "/" +:+ join (y :: ys))
    by reflexivity.
  destruct l as [|d' l]; [reflexivity|].
  change ((d' :: l) ++ [c])%list with (d' :: (l ++ [c]))%list in *.
  rewrite Hcons, IH, Hcons. by rewrite !Str.app_assoc.
Qed.

Lemma last_elem_no_sep (c : string) : has_sep c = false -> last_elem c = c.
Proof. intros H. unfold last_elem. by rewrite (split_no_sep c H). Qed.

Lemma last_elem_sep (a c : string) :
  has_sep c = false -> last_elem (a +:+ "/" +:+ c) = c.
Proof.
  intros H. unfold last_elem.
  rewrite split_app_sep, (split_no_sep c H). apply List.last_last.
Qed.

Lemma last_elem_app_sep (a b : string) :
  last_elem (a +:+ "/" +:+ b) = last_elem b.
Proof.
  unfold last_elem. rewrite split_app_sep.
  pose proof (split_nonempty b) as Hne.
  destruct (exists_last Hne) as (cs & c & ->).
  by rewrite List.app_assoc, !List.last_last.
Qed.

Lemma last_elem_has_no_sep (p : string) : has_sep (last_elem p) = false.
Proof.
  apply (split_elems_no_sep p). unfold last_elem.
  pose proof (split_nonempty p) as Hne.
  destruct (exists_last Hne) as (cs & c & ->).
  rewrite List.last_last. apply List.in_or_app. right. by left.
Qed.

Lemma clean_step_plain (rooted : bool) (out : list string) (c : string) :
  plain c -> clean_step rooted out c = c :: out.
Proof.
  intros (H1 & H2 & H3). unfold clean_step.
  apply String.eqb_neq in H1, H2, H3. by rewrite H1, H2, H3.
Qed.

(** [Clean] keeps a plain last element in last position. *)
Lemma last_elem_Clean (p : string) :
  plain (last_elem p) -> last_elem (Clean p) = last_elem p.
Proof.
  intros Hplain.
  pose proof (last_elem_has_no_sep p) as Hsep.
  assert (Hp : p <> "").
  { intros ->. by destruct Hplain as [H _]. }
  unfold Clean. apply String.eqb_neq in Hp. rewrite Hp.
  unfold last_elem in Hplain, Hsep |- *.
  pose proof (split_nonempty p) as Hne.
  destruct (exists_last Hne) as (cs & c & E). rewrite E in *.
  rewrite List.last_last in *.
  rewrite fold_left_app. simpl. rewrite (clean_step_plain _ _ _ Hplain).
  simpl rev. rewrite join_snoc.
  destruct (is_rooted p).
  - destruct (rev _) as [|d l].
    + apply (last_elem_sep "" c Hsep).
    + change ("/" +:+ join (d :: l) +:+ "/" +:+ c)
        with (("/" +:+ join (d :: l)) +:+ "/" +:+ c).
      apply (last_elem_sep _ c Hsep).
  - destruct (rev _) as [|d l].
    + apply (last_elem_no_sep c Hsep).
    + apply (last_elem_sep _ c Hsep).
Qed.

(** [Join] keeps a plain last element of its second argument. *)
Lemma last_elem_Join (a b : string) :
  plain (last_elem b) -> last_elem (Join a b) = last_elem b.
Proof.
  intros Hplain. unfold Join.
  destruct (String.eqb a "") eqn:Ha; simpl.
  - assert (Hb : b <> "") by (intros ->; by destruct Hplain as [H _]).
    apply String.eqb_neq in Hb. rewrite Hb. simpl.
    by apply last_elem_Clean.
  - rewrite last_elem_Clean; rewrite last_elem_app_sep; done.
Qed.

Lemma is_rooted_app (a b : string) :
  a <> "" -> is_rooted (a +:+ b) = is_rooted a.
Proof. destruct a as [|x a]; [done|reflexivity]. Qed.

Lemma clean_step_dot (rooted : bool) (out : list string) :
  clean_step rooted out "." = out.
Proof. reflexivity. Qed.

(** A [.] element in front of the second argument of [Join] is dropped. *)
Lemma Join_dot (a b : string) :
  a <> "" -> Join a ("./" +:+ b) = Join a b.
Proof.
  intros Ha. unfold Join. apply String.eqb_neq in Ha. rewrite Ha. simpl negb.
  apply String.eqb_neq in Ha.
  assert (Hne : forall y, String.eqb (a +:+ y) "" = false).
  { intros y. apply String.eqb_neq. destruct a; [done|discriminate]. }
  unfold Clean. rewrite !Hne, !is_rooted_app by done.
  change ("./" +:+ b) with ("." +:+ "/" +:+ b).
  rewrite !split_app_sep, !fold_left_app.
  change (split ".") with ["."]. cbn [fold_left].
  by rewrite clean_step_dot.
Qed.

Lemma has_sep_app (a b : string) :
  has_sep (a +:+ b) = has_sep a || has_sep b.
Proof.
  induction a as [|x a IH]; [reflexivity|].
  rewrite Str.app_cons. simpl. rewrite IH. by rewrite orb_assoc.
Qed.

Lemma last_elem_ne (p suffix : string) :
  suffix <> "" -> has_sep suffix = false -> p <> last_elem p +:+ suffix.
Proof.
  intros Hne Hsep H. destruct (has_sep p) eqn:Hp.
  - apply (f_equal has_sep) in H.
    rewrite has_sep_app, Hp, last_elem_has_no_sep, Hsep in H. discriminate.
  - rewrite (last_elem_no_sep p Hp) in H.
    apply (f_equal String.length) in H. rewrite Str.length_app in H.
    destruct suffix; [done|]. simpl in H. lia.
Qed.

(** A path that [Clean] leaves as it is. *)
Definition is_clean (path : string) : Prop := Clean path = path.

(** Joining a plain element to a clean directory other than [.] and [/]
    appends a separator and the element. *)
Lemma Join_clean (d x : string) :
  is_clean d -> d <> "." -> d <> "/" -> plain x -> has_sep x = false ->
  Join d x = d +:+ "/" +:+ x.
Proof.
  unfold is_clean. intros Hd Hdot Hroot Hx Hsep.
  assert (Hne : d <> "").
  { intros ->. apply Hdot. symmetry. exact Hd. }
  unfold Join. apply String.eqb_neq in Hne. rewrite Hne. simpl negb.
  apply String.eqb_neq in Hne.
  unfold Clean in Hd |- *.
  assert (Hne' : String.eqb (d +:+ "/" +:+ x) "" = false).
  { apply String.eqb_neq. destruct d; [done|discriminate]. }
  rewrite Hne'. apply String.eqb_neq in Hne. rewrite Hne in Hd.
  rewrite is_rooted_app by (by apply String.eqb_neq).
  rewrite split_app_sep, (split_no_sep x Hsep), fold_left_app.
  cbn [fold_left]. rewrite (clean_step_plain _ _ _ Hx).
  cbn [rev]. rewrite join_snoc.
  destruct (is_rooted d).
  - destruct (rev (fold_left (clean_step true) (split d) [])) as [|c cs] eqn:E.
    + exfalso. apply Hroot. rewrite <- Hd. reflexivity.
    + rewrite <- Hd. by rewrite Str.app_assoc.
  - destruct (fold_left (clean_step false) (split d) []) as [|c cs] eqn:E.
    + exfalso. apply Hdot. rewrite <- Hd. reflexivity.
    + destruct (rev (c :: cs)) as [|c' cs'] eqn:E'.
      * exfalso. apply (f_equal (@length string)) in E'.
        rewrite length_rev in E'. discriminate E'.
      * by rewrite <- Hd.
Qed.

(** Splitting a path and joining its elements gives the path back. *)
Lemma join_split (s : string) : join (split s) = s.
Proof.
  induction s as [|a s IH]; [reflexivity|].
  simpl. pose proof (split_nonempty s) as Hne.
  destruct (Ascii.eqb_spec a Separator) as [->|Ha].
  - destruct (split s) as [|c cs]; [done|].
    change (join ("" :: c :: cs)) with ("" +:+ "/" +:+ join (c :: cs)).
    by rewrite IH.
  - destruct (split s) as [|c cs]; [done|].
    rewrite <- IH. by destruct cs.
Qed.

(** *** [Clean] is idempotent *)

(** The shape of the output buffer of [Clean], most recent element first:
    plain elements, on top of [..] elements when the path is not rooted. *)
Definition clean_stack (rooted : bool) (out : list string) : Prop :=
  exists plains n,
    out = (plains ++ repeat ".." n)%list /\
    Forall (fun c => plain c /\ has_sep c = false) plains /\
    (rooted = true -> n = 0).

Lemma clean_stack_step (rooted : bool) (out : list string) (c : string) :
  has_sep c = false -> clean_stack rooted out ->
  clean_stack rooted (clean_step rooted out c).
Proof.
  intros Hsep (plains & n & -> & Hplains & Hn). unfold clean_step.
  destruct (String.eqb_spec c "") as [|H1]; [by exists plains, n|].
  destruct (String.eqb_spec c ".") as [|H2]; [by exists plains, n|].
  destruct (String.eqb_spec c "..") as [->|H3].
  - destruct plains as [|p ps].
    + destruct n as [|n]; simpl.
      * destruct rooted; [by exists [], 0|]. by exists [], 1.
      * destruct rooted; [by exists [], (S n)|]. by exists [], (S (S n)).
    + apply Forall_cons_1 in Hplains as [[(_ & _ & Hp) _] Hps].
      cbn [app]. apply String.eqb_neq in Hp. rewrite Hp. by exists ps, n.
  - exists (c :: plains), n. split; [reflexivity|]. split; [|done].
    constructor; [|done]. by repeat split.
Qed.

Lemma clean_stack_fold (rooted : bool) (elems out : list string) :
  Forall (fun c => has_sep c = false) elems -> clean_stack rooted out ->
  clean_stack rooted (fold_left (clean_step rooted) elems out).
Proof.
  revert out. induction elems as [|c elems IH]; intros out Hall Hout; [done|].
  apply Forall_cons_1 in Hall as [Hc Hall]. simpl.
  apply IH; [done|]. by apply clean_stack_step.
Qed.

Lemma split_all_no_sep (s : string) :
  Forall (fun c => has_sep c = false) (split s).
Proof. apply List.Forall_forall. intros c. apply split_elems_no_sep. Qed.

(** Joining separator-free elements and splitting again gives them back. *)
Lemma split_join (l : list string) :
  l <> [] -> Forall (fun c => has_sep c = false) l -> split (join l) = l.
Proof.
  induction l as [|c l IH]; [done|]. intros _ Hall.
  apply Forall_cons_1 in Hall as [Hc Hall].
  destruct l as [|d l]; [by apply split_no_sep|].
  change (join (c :: d :: l)) with (c +:+ "/" +:+ join (d :: l)).
  rewrite split_app_sep, (split_no_sep c Hc), IH; done.
Qed.

(** Cleaning the elements of a clean output again rebuilds it. *)
Lemma clean_fold_plain (rooted : bool) (plains acc : list string) :
  Forall (fun c => plain c /\ has_sep c = false) plains ->
  fold_left (clean_step rooted) (rev plains) acc = (plains ++ acc)%list.
Proof.
  induction plains as [|c plains IH]; intros Hall; [reflexivity|].
  apply Forall_cons_1 in Hall as [[Hc _] Hall].
  cbn [rev]. rewrite fold_left_app, IH by done. cbn [fold_left].
  by rewrite clean_step_plain.
Qed.

Lemma clean_fold_dotdot (n : nat) (m : nat) :
  fold_left (clean_step false) (repeat ".." n) (repeat ".." m)
  = repeat ".." (n + m).
Proof.
  revert m. induction n as [|n IH]; intros m; [reflexivity|].
  cbn [repeat fold_left].
  replace (clean_step false (repeat ".." m) "..") with (repeat ".." (S m))
    by by destruct m.
  rewrite IH. f_equal. lia.
Qed.

Lemma rev_repeat_same (x : string) (n : nat) : rev (repeat x n) = repeat x n.
Proof.
  induction n as [|n IH]; [reflexivity|].
  cbn [repeat rev]. rewrite IH. symmetry. apply repeat_cons.
Qed.

Lemma clean_fold_stack (rooted : bool) (out : list string) :
  clean_stack rooted out ->
  fold_left (clean_step rooted) (rev out) [] = out /\
  Forall (fun c => c <> "" /\ has_sep c = false) out.
Proof.
  intros (plains & n & -> & Hplains & Hn). split.
  - rewrite rev_app_distr, fold_left_app, rev_repeat_same.
    destruct rooted.
    + rewrite (Hn eq_refl). cbn [repeat fold_left].
      by apply clean_fold_plain.
    + pose proof (clean_fold_dotdot n 0) as Hdd.
      change (repeat ".." 0) with (@nil string) in Hdd.
      rewrite Nat.add_0_r in Hdd. rewrite Hdd.
      by apply clean_fold_plain.
  - apply Forall_app. split.
    + eapply List.Forall_impl; [|exact Hplains]. by intros c [[H _] Hs].
    + apply List.Forall_forall. intros c Hc. apply repeat_spec in Hc.
      by subst c.
Qed.

Lemma join_head (c : string) (l : list string) :
  c <> "" -> has_sep c = false ->
  join (c :: l) <> "" /\ is_rooted (join (c :: l)) = false.
Proof.
  intros Hne Hsep.
  assert (H : forall x, c +:+ x <> "" /\ is_rooted (c +:+ x) = false).
  { intros x. destruct c as [|a c]; [done|]. split; [done|].
    simpl in Hsep |- *. by apply orb_false_elim in Hsep as [H _]. }
  destruct l as [|d l].
  - specialize (H ""). by rewrite Str.app_nil_r in H.
  - apply H.
Qed.

(** [Clean] returns a path that it leaves as it is. *)
Lemma Clean_idem (p : string) : Clean (Clean p) = Clean p.
Proof.
  remember (Clean p) as q eqn:Hq. unfold Clean in Hq.
  destruct (String.eqb p ""); [by subst q|].
  cbn zeta in Hq.
  pose proof (clean_stack_fold (is_rooted p) (split p) []
                (split_all_no_sep p)) as Hstack.
  destruct (clean_fold_stack (is_rooted p)
              (fold_left (clean_step (is_rooted p)) (split p) [])) as [Hfold Hall].
  { apply Hstack. by exists [], 0. }
  set (out := fold_left (clean_step (is_rooted p)) (split p) []) in *.
  assert (Hrev : Forall (fun c => c <> "" /\ has_sep c = false) (rev out))
    by by apply Forall_rev.
  assert (Hsep : Forall (fun c => has_sep c = false) (rev out)).
  { eapply List.Forall_impl; [|exact Hrev]. by intros c [_ H]. }
  destruct (is_rooted p).
  - subst q. unfold Clean.
    assert (Hne : String.eqb ("/" +:+ join (rev out)) "" = false)
      by reflexivity.
    rewrite Hne. change (is_rooted ("/" +:+ join (rev out))) with true.
    cbn zeta. change ("/" +:+ join (rev out)) with ("" +:+ "/" +:+ join (rev out)).
    rewrite split_app_sep. cbn [split app fold_left].
    change (clean_step true [] "") with (@nil string).
    destruct (rev out) as [|c l] eqn:E.
    + reflexivity.
    + rewrite (split_join (c :: l)); [|discriminate|exact Hsep].
      by rewrite Hfold, E.
  - destruct out as [|c0 out0] eqn:Eout; [by subst q|].
    destruct (rev (c0 :: out0)) as [|c l] eqn:E.
    { apply (f_equal (@length string)) in E. rewrite length_rev in E.
      discriminate E. }
    apply Forall_cons_1 in Hrev as [[Hc Hcs] _].
    destruct (join_head c l Hc Hcs) as [Hne Hroot].
    subst q. unfold Clean. apply String.eqb_neq in Hne. rewrite Hne, Hroot.
    cbn zeta. rewrite (split_join (c :: l)); [|discriminate|exact Hsep].
    by rewrite Hfold, <- E.
Qed.

(** [Join] returns a clean path, or the empty path when both arguments
    are empty. *)
Lemma Join_is_clean (a b : string) : Join a b <> "" -> is_clean (Join a b).
Proof.
  unfold Join, is_clean.
  destruct (String.eqb a ""); cbn [negb].
  - destruct (String.eqb b ""); cbn [negb]; [done|]. intros _. apply Clean_idem.
  - intros _. apply Clean_idem.
Qed.

End Filepath.

(* ===================================================================== *)
(** * Sorting: [sort.SliceStable] *)
(* ===================================================================== *)

(** [sort.SliceStable(x, less)] belongs to Go's standard library: it sorts
    by [less] and keeps elements that are not ordered by [less] in their
    original order.  For a [less] that compares keys there is exactly one
    such result; it is computed here by stable insertion. *)

Module Sort.
Section SliceStable.
Context {A : Type} (less : A -> A -> bool).

(** Insert [x], which stood before every element of [l] in the input, in
    front of the first element that is not strictly less than it. *)
Fixpoint insert (x : A) (l : list A) : list A :=
  match l with
  | [] => [x]
  | y :: l' => if less y x then y :: insert x l' else x :: y :: l'
  end.

Fixpoint SliceStable (l : list A) : list A :=
  match l with
  | [] => []
  | x :: l' => insert x (SliceStable l')
  end.

Lemma insert_perm (x : A) (l : list A) : Permutation (insert x l) (x :: l).
Proof.
  induction l as [|y l IH]; simpl; [done|].
  destruct (less y x); [|done].
  rewrite IH. apply perm_swap.
Qed.

Lemma SliceStable_perm (l : list A) : Permutation (SliceStable l) l.
Proof.
  induction l as [|x l IH]; simpl; [done|].
  rewrite insert_perm. by constructor.
Qed.

End SliceStable.

(** Sorting by an integer key: [less x y] is [key x < key y]. *)
Section ByKey.
Context {A : Type} (key : A -> Z).

Definition less_key (x y : A) : bool := (key x <? key y)%Z.
Definition le_key (x y : A) : Prop := (key x <= key y)%Z.

Lemma insert_sorted (x : A) (l : list A) :
  StronglySorted le_key l -> StronglySorted le_key (insert less_key x l).
Proof.
  induction 1 as [|y l Hs IH Hall]; simpl.
  - repeat constructor.
  - unfold less_key at 1. destruct (Z.ltb_spec (key y) (key x)) as [Hlt|Hge].
    + constructor; [exact IH|].
      apply (Permutation_Forall (symmetry (insert_perm less_key x l))).
      constructor; [unfold le_key; lia|exact Hall].
    + constructor; [by constructor|].
      constructor; [exact Hge|].
      eapply Forall_impl; [exact Hall|].
      unfold le_key. intros z Hz. simpl in *. lia.
Qed.

Lemma SliceStable_sorted (l : list A) :
  StronglySorted le_key (SliceStable less_key l).
Proof.
  induction l as [|x l IH]; simpl; [constructor|]. by apply insert_sorted.
Qed.

(** Stability: the elements of any one key keep their order. *)
Lemma insert_filter_key (k : Z) (x : A) (l : list A) :
  StronglySorted le_key l ->
  List.filter (fun y => (key y =? k)%Z) (insert less_key x l) =
  List.filter (fun y => (key y =? k)%Z) (x :: l).
Proof.
  induction 1 as [|y l Hs IH Hall]; [reflexivity|].
  simpl insert. unfold less_key at 1.
  destruct (Z.ltb_spec (key y) (key x)) as [Hlt|Hge]; [|reflexivity].
  simpl in *. rewrite IH.
  destruct (Z.eqb_spec (key x) k) as [Hx|Hx],
           (Z.eqb_spec (key y) k) as [Hy|Hy]; try reflexivity.
  lia.
Qed.

Lemma SliceStable_stable (k : Z) (l : list A) :
  List.filter (fun y => (key y =? k)%Z) (SliceStable less_key l) =
  List.filter (fun y => (key y =? k)%Z) l.
Proof.
  induction l as [|x l IH]; [reflexivity|].
  simpl SliceStable. rewrite insert_filter_key by apply SliceStable_sorted.
  simpl. by rewrite IH.
Qed.

(** A sorted list is its part below a bound followed by the rest. *)
Lemma sorted_split_at (m : Z) (l : list A) :
  StronglySorted le_key l ->
  l = (List.filter (fun y => (key y <? m)%Z) l ++
       List.filter (fun y => (m <=? key y)%Z) l)%list.
Proof.
  induction 1 as [|y l Hs IH Hall]; [reflexivity|].
  simpl. destruct (Z.ltb_spec (key y) m) as [Hlt|Hge].
  - destruct (Z.leb_spec m (key y)); [lia|]. simpl. by rewrite <- IH.
  - destruct (Z.leb_spec m (key y)); [|lia].
    assert (Hnone : List.filter (fun z => (key z <? m)%Z) l = []).
    { clear IH Hs. induction l as [|z l IHl]; [reflexivity|].
      inversion Hall as [|? ? Hz Hall']; subst. simpl.
      unfold le_key in Hz.
      destruct (Z.ltb_spec (key z) m); [lia|]. by apply IHl. }
    rewrite Hnone. simpl. f_equal.
    clear IH Hs Hnone. induction l as [|z l IHl]; [reflexivity|].
    inversion Hall as [|? ? Hz Hall']; subst. simpl.
    unfold le_key in Hz.
    destruct (Z.leb_spec m (key z)); [|lia]. f_equal. by apply IHl.
Qed.

End ByKey.
End Sort.

(* ===================================================================== *)
(** * The world: files, console and failing system calls *)
(* ===================================================================== *)

Module OS.

(** Go's [error] values, as far as the code tells them apart. *)
Inductive error : Type :=
| ErrNotExist (op path : string)   (* a path error for which os.IsNotExist holds *)
| ErrSys (msg : string)            (* any other failure of a system call *)
| Errorf (format arg : string)     (* fmt.Errorf(format, arg) *)
| ErrCollab (msg : string).        (* an error returned by a collaborator *)

Definition IsNotExist (e : error) : bool :=
  match e with
  | ErrNotExist _ _ => true
  | _ => false
  end.

(** An argument of a formatted console line: a string, or the text
    [err.Error()] of an error. *)
Inductive fmt_arg : Type :=
| ArgStr (s : string)
| ArgErrText (e : error).

Inductive node : Type :=
| File (data : string)
| Dir.

Definition node_IsDir (n : node) : bool :=
  match n with
  | Dir => true
  | File _ => false
  end.

Inductive syscall : Type :=
| SysStat (path : string)
| SysMkdirAll (path : string)
| SysReadFile (path : string)
| SysWriteFile (path data : string)
| SysRemove (path : string)
| SysReadDir (path : string).

Inductive event : Type :=
| EvSys (c : syscall)
| EvPrint (format : string) (arg : fmt_arg).

(** [fs] maps a path to what is stored there.  [fault] says which system
    calls the environment makes fail (permissions, full disk, ...), and with
    which error.  [trace] records, oldest first, every system call made and
    every console line printed. *)
Record World : Type := mkWorld {
  fs : gmap string node;
  fault : syscall -> option error;
  trace : list event
}.

(** [os.FileInfo], reduced to the two methods the code calls. *)
Record FileInfo : Type := mkFileInfo {
  Name : string;
  IsDir : bool
}.

(** ** A state monad over the world *)

Definition M (A : Type) : Type := World -> A * World.

Definition ret {A : Type} (a : A) : M A := fun w => (a, w).

Definition bind {A B : Type} (m : M A) (k : A -> M B) : M B :=
  fun w => let (a, w') := m w in k a w'.

Declare Scope os_scope.
Delimit Scope os_scope with os.
Notation "'do' x <- m ; k" := (bind m (fun x => k))
  (at level 10, x name, m at level 99, k at level 200) : os_scope.
Local Open Scope os_scope.

(** The world after one more event. *)
Definition log (ev : event) (w : World) : World :=
  mkWorld (fs w) (fault w) (trace w ++ [ev]).

Definition emit (ev : event) : M unit := fun w => (tt, log ev w).

Lemma fs_log (ev : event) (w : World) : fs (log ev w) = fs w.
Proof. reflexivity. Qed.

Lemma fault_log (ev : event) (w : World) : fault (log ev w) = fault w.
Proof. reflexivity. Qed.

Lemma trace_log (ev : event) (w : World) : trace (log ev w) = trace w ++ [ev].
Proof. reflexivity. Qed.

Definition get_fs : M (gmap string node) := fun w => (fs w, w).

(** The world with its files replaced. *)
Definition set_fs (m : gmap string node) (w : World) : World :=
  mkWorld m (fault w) (trace w).

Definition put_fs (m : gmap string node) : M unit :=
  fun w => (tt, set_fs m w).

(** Enter a system call: log it and ask the environment whether it fails. *)
Definition enter (c : syscall) : M (option error) :=
  fun w => (fault w c, log (EvSys c) w).

(** [console.Printlnf(format, arg)]. *)
Definition Printlnf (format : string) (arg : fmt_arg) : M unit :=
  emit (EvPrint format arg).

(** ** System calls *)

(** [os.Stat]. *)
Definition Stat (path : string) : M (FileInfo + error) :=
  do f <- enter (SysStat path);
  match f with
  | Some e => ret (inr e)
  | None =>
      do m <- get_fs;
      match m !! path with
      | Some n => ret (inl (mkFileInfo (Filepath.last_elem path) (node_IsDir n)))
      | None => ret (inr (ErrNotExist "stat" path))
      end
  end.

(** The directories that lie above a path, nearest first, as [os.MkdirAll]
    finds them: skip the separators that end the path, scan back over its
    last element, and take what is in front of the separator before it, as
    long as that is not empty; then go on from there.  [rl] holds the
    elements of the path, last first.  The root and the current directory
    are not in the list: they always exist. *)
Fixpoint parents_rev (rl : list string) : list string :=
  match rl with
  | [] => []
  | c :: rest =>
      if String.eqb c "" then parents_rev rest
      else match rest with
           | [] => []
           | _ :: _ =>
               let parent := Filepath.join (rev rest) in
               if String.eqb parent "" then [] else parent :: parents_rev rest
           end
  end.

Definition ancestors (path : string) : list string :=
  parents_rev (rev (Filepath.split path)).

(** [os.Mkdir] of a path that holds nothing and whose parent exists. *)
Definition mkdir (path : string) (m : gmap string node)
  : gmap string node + error :=
  if String.eqb path "" then inr (ErrNotExist "mkdir" path)
  else inl (<[path := Dir]> m).

(** The recursion of [os.MkdirAll] along a path and the directories above
    it: a directory that exists ends it, a file in the way fails it, and
    what is missing is created from the top down. *)
Fixpoint mkdir_chain (chain : list string) (m : gmap string node)
  : gmap string node + error :=
  match chain with
  | [] => inl m
  | path :: above =>
      match m !! path with
      | Some Dir => inl m
      | Some (File _) => inr (ErrSys "mkdir: not a directory")
      | None =>
          match mkdir_chain above m with
          | inr e => inr e
          | inl m' => mkdir path m'
          end
      end
  end.

(** [os.MkdirAll]: nothing to do for a directory that exists, an error for
    a path that is a file or lies below one; every missing directory above
    the path is created with it. *)
Definition MkdirAll (path : string) : M (option error) :=
  do f <- enter (SysMkdirAll path);
  match f with
  | Some e => ret (Some e)
  | None =>
      do m <- get_fs;
      match mkdir_chain (path :: ancestors path) m with
      | inr e => ret (Some e)
      | inl m' => do _ <- put_fs m'; ret None
      end
  end.

(** [ioutil.ReadFile]. *)
Definition ReadFile (path : string) : M (string + error) :=
  do f <- enter (SysReadFile path);
  match f with
  | Some e => ret (inr e)
  | None =>
      do m <- get_fs;
      match m !! path with
      | Some (File data) => ret (inl data)
      | Some Dir => ret (inr (ErrSys "read: is a directory"))
      | None => ret (inr (ErrNotExist "open" path))
      end
  end.

(** Opening a path for writing needs the directory it lies in. *)
Definition parent_error (m : gmap string node) (path : string)
  : option error :=
  match ancestors path with
  | [] => None
  | parent :: _ =>
      match m !! parent with
      | Some Dir => None
      | Some (File _) => Some (ErrSys "open: not a directory")
      | None => Some (ErrNotExist "open" path)
      end
  end.

(** [ioutil.WriteFile]: creates or truncates the file, in a directory that
    exists. *)
Definition WriteFile (path data : string) : M (option error) :=
  do f <- enter (SysWriteFile path data);
  match f with
  | Some e => ret (Some e)
  | None =>
      do m <- get_fs;
      match parent_error m path with
      | Some e => ret (Some e)
      | None =>
          match m !! path with
          | Some Dir => ret (Some (ErrSys "open: is a directory"))
          | _ => do _ <- put_fs (<[path := File data]> m); ret None
          end
      end
  end.

(** The name of [path] as an entry of directory [dir], if it is one: the
    last element of the path, when joining it to the directory gives the
    path.  [.] and [..] are not entries. *)
Definition child_name (dir path : string) : option string :=
  let name := Filepath.last_elem path in
  if negb (String.eqb name "") && negb (String.eqb name ".") &&
     negb (String.eqb name "..") &&
     String.eqb (Filepath.Join dir name) path
  then Some name
  else None.

Definition children (dir : string) (m : gmap string node) : list FileInfo :=
  omap (fun '(path, n) =>
          match child_name dir path with
          | Some name => Some (mkFileInfo name (node_IsDir n))
          | None => None
          end)
       (map_to_list m).

(** [os.Remove]: removes a file or an empty directory. *)
Definition Remove (path : string) : M (option error) :=
  do f <- enter (SysRemove path);
  match f with
  | Some e => ret (Some e)
  | None =>
      do m <- get_fs;
      match m !! path with
      | None => ret (Some (ErrNotExist "remove" path))
      | Some (File _) => do _ <- put_fs (delete path m); ret None
      | Some Dir =>
          match children path m with
          | [] => do _ <- put_fs (delete path m); ret None
          | _ :: _ => ret (Some (ErrSys "remove: directory not empty"))
          end
      end
  end.

(** [ioutil.ReadDir]: the entries of a directory, sorted by file name. *)
Definition ReadDir (path : string) : M (list FileInfo + error) :=
  do f <- enter (SysReadDir path);
  match f with
  | Some e => ret (inr e)
  | None =>
      do m <- get_fs;
      match m !! path with
      | Some Dir =>
          ret (inl (Sort.SliceStable
                      (fun a b => String.ltb (Name a) (Name b))
                      (children path m)))
      | Some (File _) => ret (inr (ErrSys "readdir: not a directory"))
      | None => ret (inr (ErrNotExist "open" path))
      end
  end.

(** ** Facts about the system calls *)

Ltac os_unfold :=
  unfold Stat, MkdirAll, ReadFile, WriteFile, Remove, ReadDir, Printlnf,
    enter, emit, get_fs, put_fs, bind, ret in *.

Lemma ReadFile_run (path : string) (w : World) :
  ReadFile path w =
  (match fault w (SysReadFile path) with
   | Some err => inr err
   | None => match fs w !! path with
             | Some (File data) => inl data
             | Some Dir => inr (ErrSys "read: is a directory")
             | None => inr (ErrNotExist "open" path)
             end
   end, log (EvSys (SysReadFile path)) w).
Proof.
  os_unfold. simpl.
  destruct (fault w (SysReadFile path)) as [err|]; [done|].
  rewrite fs_log. by destruct (fs w !! path) as [[]|].
Qed.

Lemma WriteFile_run (path data : string) (w : World) :
  WriteFile path data w =
  let w1 := log (EvSys (SysWriteFile path data)) w in
  match fault w (SysWriteFile path data) with
  | Some err => (Some err, w1)
  | None =>
      match parent_error (fs w) path with
      | Some err => (Some err, w1)
      | None => match fs w !! path with
                | Some Dir => (Some (ErrSys "open: is a directory"), w1)
                | _ => (None, set_fs (<[path := File data]> (fs w)) w1)
                end
      end
  end.
Proof.
  os_unfold. simpl.
  destruct (fault w (SysWriteFile path data)) as [err|]; [done|].
  rewrite fs_log. destruct (parent_error (fs w) path) as [err|]; [done|].
  by destruct (fs w !! path) as [[]|].
Qed.

Lemma MkdirAll_run (path : string) (w : World) :
  MkdirAll path w =
  let w1 := log (EvSys (SysMkdirAll path)) w in
  match fault w (SysMkdirAll path) with
  | Some err => (Some err, w1)
  | None => match mkdir_chain (path :: ancestors path) (fs w) with
            | inr err => (Some err, w1)
            | inl m' => (None, set_fs m' w1)
            end
  end.
Proof.
  unfold MkdirAll, enter, get_fs, put_fs, bind, ret. cbn zeta.
  destruct (fault w (SysMkdirAll path)) as [err|]; [done|].
  rewrite fs_log. by destruct (mkdir_chain _ _).
Qed.

(** *** Creating directories *)

(** What [os.MkdirAll] changes: a path either keeps what it holds, or held
    nothing, is one of the directories on the way, and is a directory
    afterwards. *)
Lemma mkdir_chain_spec (chain : list string) (m m' : gmap string node) :
  mkdir_chain chain m = inl m' ->
  forall p, m' !! p = m !! p \/
            (m !! p = None /\ m' !! p = Some Dir /\ In p chain).
Proof.
  revert m'. induction chain as [|path above IH]; intros m' H p.
  - injection H as <-. by left.
  - simpl in H. destruct (m !! path) as [[d|]|] eqn:Hpath; try discriminate.
    + injection H as <-. by left.
    + destruct (mkdir_chain above m) as [m1|err]; [|discriminate].
      unfold mkdir in H. destruct (String.eqb path ""); [discriminate|].
      injection H as <-.
      destruct (String.string_dec p path) as [->|Hne].
      * right. rewrite lookup_insert_eq. repeat split; [done|by left].
      * rewrite lookup_insert_ne by done.
        destruct (IH m1 eq_refl p) as [Heq|(H1 & H2 & H3)]; [by left|].
        right. repeat split; [done|done|by right].
Qed.

Lemma mkdir_chain_head (path : string) (above : list string)
    (m m' : gmap string node) :
  mkdir_chain (path :: above) m = inl m' -> m' !! path = Some Dir.
Proof.
  simpl. destruct (m !! path) as [[d|]|] eqn:Hpath; try discriminate.
  - by intros [= <-].
  - destruct (mkdir_chain above m) as [m1|err]; [|discriminate].
    unfold mkdir. destruct (String.eqb path ""); [discriminate|].
    intros [= <-]. apply lookup_insert_eq.
Qed.

(** [os.MkdirAll] succeeds when no file is in the way. *)
Lemma mkdir_chain_ok (chain : list string) (m : gmap string node) :
  (forall a, In a chain -> a <> "" /\ forall d, m !! a <> Some (File d)) ->
  exists m', mkdir_chain chain m = inl m'.
Proof.
  induction chain as [|path above IH]; intros H; [by exists m|].
  simpl. destruct (H path (or_introl eq_refl)) as [Hne Hfile].
  destruct (m !! path) as [[d|]|] eqn:Hpath.
  - by destruct (Hfile d).
  - by exists m.
  - destruct IH as [m1 ->]; [intros a Ha; apply H; by right|].
    unfold mkdir. apply String.eqb_neq in Hne. rewrite Hne. by eexists.
Qed.

(** Writing a file does not take away the directory it lies in. *)
Lemma parent_error_insert (m : gmap string node) (path data : string) :
  parent_error m path = None -> m !! path <> Some Dir ->
  parent_error (<[path := File data]> m) path = None.
Proof.
  unfold parent_error. destruct (ancestors path) as [|parent above]; [done|].
  intros Hparent Hpath.
  destruct (m !! parent) as [[d|]|] eqn:Hp; try discriminate.
  rewrite lookup_insert_ne; [by rewrite Hp|].
  intros Heq. apply Hpath. by rewrite Heq.
Qed.

Lemma parents_rev_nonempty (rl : list string) (a : string) :
  In a (parents_rev rl) -> a <> "".
Proof.
  induction rl as [|c rest IH]; [intros []|].
  simpl. destruct (String.eqb c ""); [exact IH|].
  destruct rest as [|c' rest']; [intros []|].
  destruct (String.eqb_spec (Filepath.join (rev (c' :: rest'))) "")
    as [|Hne]; [intros []|].
  intros [<-|Hin]; [exact Hne|by apply IH].
Qed.

Lemma ancestors_nonempty (path a : string) : In a (ancestors path) -> a <> "".
Proof. apply parents_rev_nonempty. Qed.

Lemma parents_rev_shorter (rl : list string) (a : string) :
  In a (parents_rev rl) ->
  String.length a < String.length (Filepath.join (rev rl)).
Proof.
  induction rl as [|c rest IH]; [intros []|].
  cbn [parents_rev rev]. rewrite Filepath.join_snoc.
  destruct (String.eqb_spec c "") as [->|Hc].
  - intros Hin. specialize (IH Hin).
    destruct (rev rest) as [|d l]; [simpl in IH; lia|].
    rewrite !Str.length_app. lia.
  - destruct rest as [|c' rest']; [intros []|].
    assert (Hlt : String.length (Filepath.join (rev (c' :: rest')))
                  < String.length
                      (match rev (c' :: rest') with
                       | [] => c
                       | _ :: _ =>
                           Filepath.join (rev (c' :: rest')) +:+ "/" +:+ c
                       end)).
    { destruct (rev (c' :: rest')) as [|d l] eqn:E.
      - apply (f_equal (@length string)) in E. rewrite length_rev in E.
        discriminate E.
      - rewrite !Str.length_app. simpl. lia. }
    destruct (String.eqb (Filepath.join (rev (c' :: rest'))) "");
      [intros []|].
    intros [<-|Hin]; [exact Hlt|]. specialize (IH Hin). lia.
Qed.

(** The directories above a path have shorter paths. *)
Lemma ancestors_shorter (path a : string) :
  In a (ancestors path) -> String.length a < String.length path.
Proof.
  intros Hin. apply parents_rev_shorter in Hin.
  by rewrite rev_involutive, Filepath.join_split in Hin.
Qed.

(** The directories above an entry of a directory are the directory and
    what lies above it. *)
Lemma ancestors_entry (d x : string) :
  d <> "" -> x <> "" -> Filepath.has_sep x = false ->
  ancestors (d +:+ "/" +:+ x) = d :: ancestors d.
Proof.
  intros Hd Hx Hsep. unfold ancestors.
  rewrite Filepath.split_app_sep, (Filepath.split_no_sep x Hsep).
  rewrite rev_app_distr. cbn [rev app parents_rev].
  apply String.eqb_neq in Hx. rewrite Hx.
  pose proof (Filepath.split_nonempty d) as Hne.
  destruct (rev (Filepath.split d)) as [|c rest] eqn:E.
  { apply (f_equal (@rev string)) in E. rewrite rev_involutive in E.
    by destruct Hne. }
  rewrite <- E, rev_involutive, Filepath.join_split.
  apply String.eqb_neq in Hd. by rewrite Hd.
Qed.

Lemma ReadDir_world (path : string) (w : World) :
  snd (ReadDir path w) = log (EvSys (SysReadDir path)) w.
Proof.
  os_unfold. simpl.
  destruct (fault w (SysReadDir path)) as [err|]; [done|].
  rewrite fs_log. by destruct (fs w !! path) as [[]|].
Qed.

Lemma ReadDir_frame (path : string) (w w' : World) :
  fs w' = fs w -> fault w' = fault w ->
  fst (ReadDir path w') = fst (ReadDir path w).
Proof.
  intros Hs Hf. os_unfold. simpl. rewrite Hf.
  destruct (fault w (SysReadDir path)) as [err|]; [done|].
  rewrite ?fs_log, Hs. by destruct (fs w !! path) as [[]|].
Qed.

(** *** Later states *)

(** [w'] is a later state of [w]: the same environment, and a trace that
    extends the one of [w]. *)
Definition later (w w' : World) : Prop :=
  fault w' = fault w /\ exists evs, trace w' = trace w ++ evs.

Lemma later_refl (w : World) : later w w.
Proof. split; [done|]. exists []. by rewrite app_nil_r. Qed.

Lemma later_trans (w1 w2 w3 : World) : later w1 w2 -> later w2 w3 -> later w1 w3.
Proof.
  intros [Hf1 [evs1 H1]] [Hf2 [evs2 H2]]. split; [congruence|].
  exists (evs1 ++ evs2). by rewrite H2, H1, app_assoc.
Qed.

Lemma later_log (ev : event) (w : World) : later w (log ev w).
Proof. split; [done|]. by exists [ev]. Qed.

Lemma later_set_fs (m : gmap string node) (w : World) : later w (set_fs m w).
Proof. split; [done|]. exists []. by rewrite app_nil_r. Qed.

Lemma later_In (ev : event) (w w' : World) :
  later w w' -> In ev (trace w) -> In ev (trace w').
Proof. intros [_ [evs ->]] H. apply in_or_app. by left. Qed.

Lemma In_trace_log (ev : event) (w : World) : In ev (trace (log ev w)).
Proof. rewrite trace_log. apply in_or_app. right. by left. Qed.

Lemma later_WriteFile (path data : string) (w : World) :
  later w (snd (WriteFile path data w)).
Proof.
  rewrite WriteFile_run. cbn zeta.
  destruct (fault w _) as [err|]; [apply later_log|].
  destruct (parent_error (fs w) path) as [err|]; [apply later_log|].
  destruct (fs w !! path) as [[]|]; cbn [snd];
    try apply later_log;
    (eapply later_trans; [apply later_log|apply later_set_fs]).
Qed.

Lemma later_MkdirAll (path : string) (w : World) :
  later (log (EvSys (SysMkdirAll path)) w) (snd (MkdirAll path w)).
Proof.
  rewrite MkdirAll_run. cbn zeta.
  destruct (fault w _) as [err|]; [apply later_refl|].
  destruct (mkdir_chain _ _) as [m'|err]; cbn [snd];
    [apply later_set_fs|apply later_refl].
Qed.


(** *** States that keep a file *)

(** [w'] is a later state of [w] in which the file at [p] is as it was and
    has not been written. *)
Definition keeps (p : string) (w w' : World) : Prop :=
  fault w' = fault w /\
  fs w' !! p = fs w !! p /\
  forall data, In (EvSys (SysWriteFile p data)) (trace w') ->
               In (EvSys (SysWriteFile p data)) (trace w).

Lemma keeps_refl (p : string) (w : World) : keeps p w w.
Proof. by repeat split. Qed.

Lemma keeps_trans (p : string) (w1 w2 w3 : World) :
  keeps p w1 w2 -> keeps p w2 w3 -> keeps p w1 w3.
Proof.
  intros (Hf1 & Hs1 & Ht1) (Hf2 & Hs2 & Ht2).
  repeat split; [congruence|congruence|auto].
Qed.

Lemma keeps_log (p : string) (ev : event) (w : World) :
  (forall data, ev <> EvSys (SysWriteFile p data)) -> keeps p w (log ev w).
Proof.
  intros Hev. repeat split. intros data. rewrite trace_log.
  intros [H|[H|[]]]%in_app_or; [done|]. by destruct (Hev data).
Qed.

Lemma keeps_set_fs (p : string) (m : gmap string node) (w : World) :
  m !! p = fs w !! p -> keeps p w (set_fs m w).
Proof. intros H. by repeat split. Qed.

Lemma keeps_WriteFile (p path data : string) (w : World) :
  path <> p -> keeps p w (snd (WriteFile path data w)).
Proof.
  intros Hne. rewrite WriteFile_run. cbn zeta.
  assert (Hlog : keeps p w (log (EvSys (SysWriteFile path data)) w)).
  { apply keeps_log. congruence. }
  destruct (fault w _) as [err|]; [exact Hlog|].
  destruct (parent_error (fs w) path) as [err|]; [exact Hlog|].
  destruct (fs w !! path) as [[]|]; cbn [snd]; try exact Hlog;
    (eapply keeps_trans; [exact Hlog|]; apply keeps_set_fs;
     rewrite fs_log; by apply lookup_insert_ne).
Qed.

Lemma keeps_MkdirAll (p path d : string) (w : World) :
  fs w !! p = Some (File d) -> keeps p w (snd (MkdirAll path w)).
Proof.
  intros Hp. rewrite MkdirAll_run. cbn zeta.
  assert (Hlog : keeps p w (log (EvSys (SysMkdirAll path)) w)).
  { by apply keeps_log. }
  destruct (fault w _) as [err|]; [exact Hlog|].
  destruct (mkdir_chain _ _) as [m'|err] eqn:Hm; cbn [snd]; [|exact Hlog].
  eapply keeps_trans; [exact Hlog|]. apply keeps_set_fs. rewrite fs_log.
  destruct (mkdir_chain_spec _ _ _ Hm p) as [Heq|(Hnone & _)]; [done|].
  rewrite Hnone in Hp. discriminate Hp.
Qed.

Lemma keeps_MkdirAll_notin (p path : string) (w : World) :
  ~ In p (path :: ancestors path) -> keeps p w (snd (MkdirAll path w)).
Proof.
  intros Hnotin. rewrite MkdirAll_run. cbn zeta.
  assert (Hlog : keeps p w (log (EvSys (SysMkdirAll path)) w)).
  { by apply keeps_log. }
  destruct (fault w _) as [err|]; [exact Hlog|].
  destruct (mkdir_chain _ _) as [m'|err] eqn:Hm; cbn [snd]; [|exact Hlog].
  eapply keeps_trans; [exact Hlog|]. apply keeps_set_fs. rewrite fs_log.
  destruct (mkdir_chain_spec _ _ _ Hm p) as [Heq|(_ & _ & Hin)]; [done|].
  by destruct Hnotin.
Qed.

(** [os.MkdirAll] leaves every path that holds something as it is. *)
Lemma MkdirAll_preserves (p path : string) (n : node) (w : World) :
  fs w !! p = Some n -> fs (snd (MkdirAll path w)) !! p = Some n.
Proof.
  intros Hp. rewrite MkdirAll_run. cbn zeta.
  destruct (fault w _) as [err|]; [exact Hp|].
  destruct (mkdir_chain _ _) as [m'|err] eqn:Hm; cbn [snd]; [|exact Hp].
  change (fs (set_fs m' _)) with m'.
  destruct (mkdir_chain_spec _ _ _ Hm p) as [Heq|(Hnone & _)];
    [by rewrite Heq|].
  rewrite Hnone in Hp. discriminate Hp.
Qed.

(** *** Directory entries *)




(** [ReadDir] returns the entries of the directory, each once per path. *)
Lemma ReadDir_In (path : string) (w : World) (files : list FileInfo)
    (fi : FileInfo) :
  fst (ReadDir path w) = inl files ->
  (In fi files <-> In fi (children path (fs w))).
Proof.
  os_unfold. simpl.
  destruct (fault w (SysReadDir path)) as [err|]; [discriminate|].
  rewrite ?fs_log.
  destruct (fs w !! path) as [[]|]; simpl; try discriminate.
  intros [= <-]. split; apply Permutation_in.
  - apply Sort.SliceStable_perm.
  - symmetry. apply Sort.SliceStable_perm.
Qed.

(** *** What a run adds to the trace *)

(** [w'] is a later state of [w], and every event recorded in between
    satisfies [P]. *)
Definition adds (P : event -> Prop) (w w' : World) : Prop :=
  fault w' = fault w /\
  exists evs, trace w' = trace w ++ evs /\ Forall P evs.

Lemma adds_refl (P : event -> Prop) (w : World) : adds P w w.
Proof. split; [done|]. exists []. by rewrite app_nil_r. Qed.

Lemma adds_trans (P : event -> Prop) (w1 w2 w3 : World) :
  adds P w1 w2 -> adds P w2 w3 -> adds P w1 w3.
Proof.
  intros [Hf1 (evs1 & H1 & HP1)] [Hf2 (evs2 & H2 & HP2)].
  split; [congruence|]. exists (evs1 ++ evs2).
  split; [by rewrite H2, H1, app_assoc|].
  apply Forall_app. by split.
Qed.

Lemma adds_log (P : event -> Prop) (ev : event) (w : World) :
  P ev -> adds P w (log ev w).
Proof. intros H. split; [done|]. exists [ev]. split; [done|]. by constructor. Qed.

Lemma adds_set_fs (P : event -> Prop) (m : gmap string node) (w : World) :
  adds P w (set_fs m w).
Proof. split; [done|]. exists []. by rewrite app_nil_r. Qed.

Lemma adds_weaken (P Q : event -> Prop) (w w' : World) :
  (forall ev, P ev -> Q ev) -> adds P w w' -> adds Q w w'.
Proof.
  intros HPQ [Hf (evs & H & HP)]. split; [done|]. exists evs.
  split; [done|]. eapply List.Forall_impl; [|exact HP]. exact HPQ.
Qed.

Lemma adds_ReadFile (P : event -> Prop) (path : string) (w : World) :
  P (EvSys (SysReadFile path)) -> adds P w (snd (ReadFile path w)).
Proof. intros H. rewrite ReadFile_run. by apply adds_log. Qed.

Lemma adds_ReadDir (P : event -> Prop) (path : string) (w : World) :
  P (EvSys (SysReadDir path)) -> adds P w (snd (ReadDir path w)).
Proof. intros H. rewrite ReadDir_world. by apply adds_log. Qed.

Lemma adds_WriteFile (P : event -> Prop) (path data : string) (w : World) :
  P (EvSys (SysWriteFile path data)) -> adds P w (snd (WriteFile path data w)).
Proof.
  intros H. rewrite WriteFile_run. cbn zeta.
  destruct (fault w _) as [err|]; [by apply adds_log|].
  destruct (parent_error (fs w) path) as [err|]; [by apply adds_log|].
  destruct (fs w !! path) as [[]|]; cbn [snd];
    try (by apply adds_log);
    (eapply adds_trans; [by apply adds_log|apply adds_set_fs]).
Qed.

Lemma adds_MkdirAll (P : event -> Prop) (path : string) (w : World) :
  P (EvSys (SysMkdirAll path)) -> adds P w (snd (MkdirAll path w)).
Proof.
  intros H. rewrite MkdirAll_run. cbn zeta.
  destruct (fault w _) as [err|]; [by apply adds_log|].
  destruct (mkdir_chain _ _) as [m'|err]; cbn [snd]; [|by apply adds_log].
  eapply adds_trans; [by apply adds_log|apply adds_set_fs].
Qed.

Lemma adds_Remove (P : event -> Prop) (path : string) (w : World) :
  P (EvSys (SysRemove path)) -> adds P w (snd (Remove path w)).
Proof.
  intros H. os_unfold. simpl.
  destruct (fault w (SysRemove path)) as [err|]; simpl; [by apply adds_log|].
  rewrite ?fs_log.
  destruct (fs w !! path) as [[data|]|]; simpl.
  - eapply adds_trans; [by apply adds_log|apply adds_set_fs].
  - destruct (children path (fs w)); simpl.
    + eapply adds_trans; [by apply adds_log|apply adds_set_fs].
    + by apply adds_log.
  - by apply adds_log.
Qed.

Lemma adds_Stat (P : event -> Prop) (path : string) (w : World) :
  P (EvSys (SysStat path)) -> adds P w (snd (Stat path w)).
Proof.
  intros H. os_unfold. simpl.
  destruct (fault w (SysStat path)) as [err|]; simpl; [by apply adds_log|].
  rewrite ?fs_log. destruct (fs w !! path); by apply adds_log.
Qed.

Lemma ReadDir_run (path : string) (w : World) :
  fst (ReadDir path w) =
  match fault w (SysReadDir path) with
  | Some err => inr err
  | None => match fs w !! path with
            | Some Dir =>
                inl (Sort.SliceStable
                       (fun a b => String.ltb (Name a) (Name b))
                       (children path (fs w)))
            | Some (File _) => inr (ErrSys "readdir: not a directory")
            | None => inr (ErrNotExist "open" path)
            end
  end.
Proof.
  os_unfold. simpl.
  destruct (fault w (SysReadDir path)) as [err|]; [done|].
  rewrite fs_log. by destruct (fs w !! path) as [[]|].
Qed.

End OS.

(* ===================================================================== *)
(** * The environment store: [internal/env/environment.go] *)
(* ===================================================================== *)

Module Env.
Import OS.
Local Open Scope os_scope.

Definition envOrderFileName : string := "env-order".

(** [math.MaxInt32]. *)
Definition MaxInt32 : Z := 2147483647.

(** [type envOrder struct { Fixed bool; Order []string }].  A nil slice is
    [None]: the code tests [order.Order == nil]. *)
Record envOrder : Type := mkEnvOrder {
  Fixed : bool;
  Order : option (list string)
}.

(** The entries of an order list, a nil slice having none. *)
Definition entries (o : envOrder) : list string := default [] (Order o).

(** [GetKeyHandler]: a [jcrypt.KeySource], [func() ([]byte, error)]. *)
Definition GetKeyHandler : Type := unit -> string + error.

(** A loop that appends to a slice the elements passing a test. *)
Definition append_if {A : Type} (keep : A -> bool) (acc : list A) (x : A)
  : list A :=
  if keep x then acc ++ [x] else acc.

Lemma fold_append_if {A : Type} (keep : A -> bool) (l acc : list A) :
  fold_left (append_if keep) l acc = acc ++ List.filter keep l.
Proof.
  revert acc. induction l as [|x l IH]; intros acc; simpl.
  - by rewrite app_nil_r.
  - rewrite IH. unfold append_if. destruct (keep x); [|done].
    by rewrite <- app_assoc.
Qed.

(** ** Ordering of the listing *)

(** [for i, name := range order.Order { orderMap[name] = i }]. *)
Fixpoint fill_orderMap (i : Z) (names : list string) (orderMap : gmap string Z)
  : gmap string Z :=
  match names with
  | [] => orderMap
  | name :: rest => fill_orderMap (i + 1) rest (<[name := i]> orderMap)
  end.

(** The sort key the [less] closure computes for a file. *)
Definition rank (orderMap : gmap string Z) (fi : FileInfo) : Z :=
  match orderMap !! Name fi with
  | Some v => v
  | None => MaxInt32
  end.

(** The closure passed to [sort.SliceStable]. *)
Definition less (orderMap : gmap string Z) (fi fj : FileInfo) : bool :=
  let iVal := rank orderMap fi in
  let jVal := rank orderMap fj in
  (iVal <? jVal)%Z.

(** The part of [GetEnvironmentFiles] after the ordering file is read. *)
Definition sortEnvFiles (order : envOrder) (envFiles : list FileInfo)
  : list FileInfo :=
  match Order order with
  | Some ((_ :: _) as names) =>
      let orderMap := fill_orderMap 0 names ∅ in
      Sort.SliceStable (less orderMap) envFiles
  | _ => envFiles
  end.

(** The test of the filtering loop of [GetEnvironmentFiles]. *)
Definition isEnvFile (fi : FileInfo) : bool :=
  negb (IsDir fi) && Str.HasSuffix (Name fi) ".json" &&
  negb (String.eqb (Name fi) envOrderFileName).

(** [if !strings.HasSuffix(name, ".json") { name += ".json" }]. *)
Definition normalize (name : string) : string :=
  if negb (Str.HasSuffix name ".json") then name +:+ ".json" else name.

(** The new order computed by [envOrderBringToFront]. *)
Definition bringToFront (name : string) (order : envOrder) : envOrder :=
  match Order order with
  | None => mkEnvOrder (Fixed order) (Some [name])
  | Some old =>
      let newOrder :=
        fold_left (append_if (fun env => negb (String.eqb env name))) old [name] in
      mkEnvOrder (Fixed order) (Some newOrder)
  end.

Definition isFile (file : string) : M (bool * option error) :=
  do r <- Stat file;
  match r with
  | inr err =>
      if IsNotExist err then ret (false, None) else ret (false, Some err)
  | inl fi => ret (negb (IsDir fi), None)
  end.

(** ** Facts about the store that do not depend on the collaborators *)

Lemma isFile_run (file : string) (w : World) :
  isFile file w =
  (match fault w (SysStat file) with
   | Some err => if IsNotExist err then (false, None) else (false, Some err)
   | None => match fs w !! file with
             | Some n => (negb (node_IsDir n), None)
             | None => (false, None)
             end
   end, log (EvSys (SysStat file)) w).
Proof.
  unfold isFile. os_unfold. simpl.
  destruct (fault w (SysStat file)) as [err|].
  - by destruct (IsNotExist err).
  - rewrite fs_log. by destruct (fs w !! file).
Qed.

(** The existence check on a path that holds nothing, or a file, when
    [os.Stat] is not made to fail. *)
Lemma isFile_absent (file : string) (w : World) :
  fs w !! file = None -> fault w (SysStat file) = None ->
  fst (isFile file w) = (false, None).
Proof. intros Hs Hf. rewrite isFile_run. cbn [fst]. by rewrite Hf, Hs. Qed.

Lemma isFile_present (file data : string) (w : World) :
  fs w !! file = Some (File data) -> fault w (SysStat file) = None ->
  fst (isFile file w) = (true, None).
Proof. intros Hs Hf. rewrite isFile_run. cbn [fst]. by rewrite Hf, Hs. Qed.

(** The value [readEnvOrder] falls back to. *)
Definition emptyOrder : envOrder := mkEnvOrder false (Some []).

(** What a listing is when no ordering applies: the record files among the
    directory entries, as enumerated. *)
Definition unorderedListing (r : list FileInfo + error)
  : list FileInfo + error :=
  match r with
  | inl files => inl (List.filter isEnvFile files)
  | inr err => if IsNotExist err then inl [] else inr err
  end.

Lemma sortEnvFiles_emptyOrder (envFiles : list FileInfo) :
  sortEnvFiles emptyOrder envFiles = envFiles.
Proof. reflexivity. Qed.

Definition warning : string := "WARNING: failed to save environment: %s".
Definition notice : string :=
  "Environment %q does not exist yet, pleaser enter below:".


(** An event that changes the store: a directory creation, a file write or
    a removal. *)
Definition mutation (ev : event) : bool :=
  match ev with
  | EvSys (SysMkdirAll _) | EvSys (SysWriteFile _ _) | EvSys (SysRemove _) => true
  | _ => false
  end.

Lemma plain_json (x : string) : Filepath.plain (x +:+ ".json").
Proof.
  repeat split; intros H; apply (f_equal String.length) in H;
    rewrite Str.length_app in H; simpl in H; lia.
Qed.

Lemma normalize_suffixed (name : string) :
  Str.HasSuffix name ".json" = true -> normalize name = name.
Proof. intros H. unfold normalize. by rewrite H. Qed.

Lemma normalize_bare (name : string) :
  Str.HasSuffix name ".json" = false -> normalize name = name +:+ ".json".
Proof. intros H. unfold normalize. by rewrite H. Qed.

Lemma normalize_has_suffix (name : string) :
  Str.HasSuffix (normalize name) ".json" = true.
Proof.
  unfold normalize. destruct (Str.HasSuffix name ".json") eqn:H; simpl.
  - exact H.
  - apply Str.HasSuffix_app.
Qed.

(** *** The bring-to-front update on order lists *)

(** The entries other than [name]: the test of the loop of
    [envOrderBringToFront]. *)
Definition others (name : string) (names : list string) : list string :=
  List.filter (fun env => negb (String.eqb env name)) names.

Lemma bringToFront_unfold (name : string) (order : envOrder) :
  bringToFront name order =
  mkEnvOrder (Fixed order) (Some (name :: others name (entries order))).
Proof.
  unfold bringToFront, entries, others.
  destruct (Order order) as [old|]; [|reflexivity].
  by rewrite fold_append_if.
Qed.

Lemma In_others (name x : string) (names : list string) :
  In x (others name names) <-> In x names /\ x <> name.
Proof.
  unfold others. rewrite List.filter_In, negb_true_iff. by rewrite String.eqb_neq.
Qed.

Lemma others_notin (name : string) (names : list string) :
  ~ In name names -> others name names = names.
Proof.
  intros Hnot. unfold others. induction names as [|x names IH]; [reflexivity|].
  simpl. destruct (String.eqb_spec x name) as [->|Hne].
  - exfalso. apply Hnot. by left.
  - simpl. f_equal. apply IH. intros H. apply Hnot. by right.
Qed.

Lemma others_idem (name : string) (names : list string) :
  others name (name :: others name names) = others name names.
Proof.
  unfold others at 1. simpl. rewrite String.eqb_refl. simpl.
  apply others_notin. rewrite In_others. tauto.
Qed.

Lemma bringToFront_idem (name : string) (order : envOrder) :
  bringToFront name (bringToFront name order) = bringToFront name order.
Proof.
  rewrite !bringToFront_unfold.
  change (entries (mkEnvOrder (Fixed order)
                     (Some (name :: others name (entries order)))))
    with (name :: others name (entries order)).
  cbn [Fixed]. by rewrite others_idem.
Qed.

Lemma bringToFront_NoDup (name : string) (names : list string) :
  List.NoDup names -> List.NoDup (name :: others name names).
Proof.
  intros Hnd. apply List.NoDup_cons.
  - rewrite In_others. tauto.
  - unfold others. by apply List.NoDup_filter.
Qed.

Lemma bringToFront_once (name : string) (names : list string) :
  List.filter (String.eqb name) (name :: others name names) = [name].
Proof.
  simpl. rewrite String.eqb_refl. f_equal.
  unfold others. induction names as [|x names IH]; [reflexivity|].
  simpl. destruct (String.eqb_spec x name) as [->|Hne]; simpl; [exact IH|].
  destruct (String.eqb_spec name x) as [->|_]; [done|exact IH].
Qed.

(** *** Ranks and the sorted listing *)

Lemma fill_orderMap_notin (name : string) (names : list string) (i : Z)
    (m : gmap string Z) :
  ~ In name names -> fill_orderMap i names m !! name = m !! name.
Proof.
  revert i m. induction names as [|x names IH]; intros i m Hnot; [reflexivity|].
  simpl. rewrite IH.
  - apply lookup_insert_ne. intros ->. apply Hnot. by left.
  - intros H. apply Hnot. by right.
Qed.

(** A listed name is mapped to the index of its last occurrence. *)
Lemma fill_orderMap_in (name : string) (names : list string) (i : Z)
    (m : gmap string Z) :
  In name names ->
  exists k : nat,
    fill_orderMap i names m !! name = Some (i + Z.of_nat k)%Z /\
    nth_error names k = Some name /\
    (forall k', (k < k')%nat -> nth_error names k' <> Some name).
Proof.
  revert i m. induction names as [|x names IH]; intros i m Hin; [done|].
  destruct (List.in_dec String.string_dec name names) as [Hrest|Hrest].
  - destruct (IH (i + 1)%Z (<[x := i]> m) Hrest) as (k & Hk & Hnth & Hlast).
    exists (S k). simpl. rewrite Hk. repeat split.
    + f_equal. lia.
    + exact Hnth.
    + intros [|k'] Hlt; [lia|]. simpl. apply Hlast. lia.
  - destruct Hin as [->|Hin]; [|done].
    exists 0%nat. simpl. rewrite (fill_orderMap_notin _ _ _ _ Hrest).
    rewrite lookup_insert_eq. repeat split.
    + f_equal. lia.
    + intros [|k'] Hlt; [lia|]. simpl. intros H.
      apply Hrest. eapply nth_error_In. exact H.
Qed.

(** The name that ends an order list is mapped to the last index. *)
Lemma fill_orderMap_last (pre : list string) (name : string) (i : Z)
    (m : gmap string Z) :
  fill_orderMap i (pre ++ [name]) m !! name = Some (i + Z.of_nat (length pre))%Z.
Proof.
  revert i m. induction pre as [|x pre IH]; intros i m.
  - cbn [app fill_orderMap length]. rewrite lookup_insert_eq. f_equal.
    change (Z.of_nat 0) with 0%Z. apply eq_sym, Z.add_0_r.
  - change ((x :: pre) ++ [name]) with (x :: (pre ++ [name])).
    cbn [fill_orderMap length]. rewrite IH. f_equal.
    rewrite Nat2Z.inj_succ. rewrite <- Z.add_1_l. apply eq_sym, Z.add_assoc.
Qed.

Definition orderMapOf (names : list string) : gmap string Z :=
  fill_orderMap 0 names ∅.

(** The file is named in the order list. *)
Definition ranked (names : list string) (fi : FileInfo) : bool :=
  existsb (String.eqb (Name fi)) names.

Lemma ranked_In (names : list string) (fi : FileInfo) :
  ranked names fi = true <-> In (Name fi) names.
Proof.
  unfold ranked. rewrite existsb_exists. split.
  - intros (x & Hx & ->%String.eqb_eq). exact Hx.
  - intros H. exists (Name fi). by rewrite String.eqb_refl.
Qed.

Lemma rank_ranked (names : list string) (fi : FileInfo) :
  ranked names fi = true ->
  exists k : nat,
    rank (orderMapOf names) fi = Z.of_nat k /\
    nth_error names k = Some (Name fi) /\
    (forall k', (k < k')%nat -> nth_error names k' <> Some (Name fi)).
Proof.
  intros Hin%ranked_In. unfold rank, orderMapOf.
  destruct (fill_orderMap_in _ _ 0 ∅ Hin) as (k & -> & Hnth & Hlast).
  exists k. by repeat split.
Qed.

Lemma rank_unranked (names : list string) (fi : FileInfo) :
  ranked names fi = false -> rank (orderMapOf names) fi = MaxInt32.
Proof.
  intros Hr. unfold rank, orderMapOf. rewrite fill_orderMap_notin.
  - by rewrite lookup_empty.
  - intros H%ranked_In. congruence.
Qed.

(** For a list without duplicates the rank of a listed file is its index. *)
Lemma rank_index (names : list string) (fi : FileInfo) (i : nat) :
  nth_error names i = Some (Name fi) -> List.NoDup names ->
  rank (orderMapOf names) fi = Z.of_nat i.
Proof.
  intros Hi Hnd.
  assert (Hr : ranked names fi = true).
  { apply ranked_In. eapply nth_error_In. exact Hi. }
  destruct (rank_ranked names fi Hr) as (k & -> & Hk & _).
  f_equal. rewrite List.NoDup_nth_error in Hnd. apply Hnd; [|congruence].
  apply nth_error_Some. congruence.
Qed.

Lemma less_is_less_key (m : gmap string Z) :
  less m = Sort.less_key (rank m).
Proof. reflexivity. Qed.

Lemma sortEnvFiles_nonempty (fixed : bool) (names : list string)
    (envFiles : list FileInfo) :
  names <> [] ->
  sortEnvFiles (mkEnvOrder fixed (Some names)) envFiles =
  Sort.SliceStable (Sort.less_key (rank (orderMapOf names))) envFiles.
Proof. intros Hne. destruct names; [done|reflexivity]. Qed.

Lemma filter_ext_in_bool {A : Type} (f g : A -> bool) (l : list A) :
  (forall x, In x l -> f x = g x) -> List.filter f l = List.filter g l.
Proof.
  induction l as [|x l IH]; intros H; [reflexivity|].
  simpl. rewrite (H x) by by left. rewrite IH; [done|].
  intros y Hy. apply H. by right.
Qed.

(** The sorted listing for an order list short enough that every index is
    below the sentinel [MaxInt32] given to unlisted files. *)
Lemma sortEnvFiles_spec (fixed : bool) (names : list string)
    (envFiles : list FileInfo) :
  names <> [] ->
  (Z.of_nat (length names) <= MaxInt32)%Z ->
  let key := rank (orderMapOf names) in
  let sorted := sortEnvFiles (mkEnvOrder fixed (Some names)) envFiles in
  Permutation sorted envFiles /\
  StronglySorted (fun a b => (key a <= key b)%Z) sorted /\
  (forall k, List.filter (fun fi => (key fi =? k)%Z) sorted =
             List.filter (fun fi => (key fi =? k)%Z) envFiles) /\
  sorted = List.filter (ranked names) sorted ++
           List.filter (fun fi => negb (ranked names fi)) envFiles.
Proof.
  intros Hne Hlen. cbn zeta. rewrite sortEnvFiles_nonempty by done.
  set (key := rank (orderMapOf names)).
  set (sorted := Sort.SliceStable (Sort.less_key key) envFiles).
  assert (Hkey : forall fi,
            (ranked names fi = true /\ (key fi < MaxInt32)%Z) \/
            (ranked names fi = false /\ key fi = MaxInt32)).
  { intros fi. destruct (ranked names fi) eqn:Hr.
    - left. split; [done|].
      destruct (rank_ranked names fi Hr) as (k & Hk & Hnth & _).
      unfold key. rewrite Hk.
      assert (k < length names)%nat by (apply nth_error_Some; congruence).
      lia.
    - right. split; [done|]. by apply rank_unranked. }
  pose proof (Sort.SliceStable_sorted key envFiles) as Hsorted.
  pose proof (Sort.SliceStable_stable key) as Hstable.
  fold sorted in Hsorted.
  repeat split.
  - apply Sort.SliceStable_perm.
  - exact Hsorted.
  - intros k. apply Hstable.
  - rewrite (Sort.sorted_split_at key MaxInt32 sorted Hsorted) at 1.
    f_equal.
    + apply filter_ext_in_bool. intros fi _.
      destruct (Hkey fi) as [[-> Hlt]|[-> Heq]].
      * by apply Z.ltb_lt.
      * apply Z.ltb_ge. lia.
    + rewrite (filter_ext_in_bool _ (fun fi => (key fi =? MaxInt32)%Z)).
      * unfold sorted. rewrite Hstable.
        apply filter_ext_in_bool. intros fi _.
        destruct (Hkey fi) as [[-> Hlt]|[-> Heq]]; simpl.
        -- apply Z.eqb_neq. lia.
        -- by apply Z.eqb_eq.
      * intros fi _. destruct (Hkey fi) as [[_ Hlt]|[_ Heq]].
        -- transitivity false; [apply Z.leb_gt; lia|symmetry; apply Z.eqb_neq; lia].
        -- rewrite Heq. by rewrite Z.leb_refl, Z.eqb_refl.
Qed.

(** The example of the specification: order list [[B, A]], files
    enumerated as [[A, B, C]]. *)
Lemma sortEnvFiles_B_A_C (fixed : bool) (A B C : string) (fA fB fC : FileInfo) :
  Name fA = A -> Name fB = B -> Name fC = C ->
  A <> B -> C <> A -> C <> B ->
  sortEnvFiles (mkEnvOrder fixed (Some [B; A])) [fA; fB; fC] = [fB; fA; fC].
Proof.
  intros HA HB HC HAB HCA HCB.
  rewrite sortEnvFiles_nonempty by done.
  assert (HrA : rank (orderMapOf [B; A]) fA = 1%Z).
  { unfold rank, orderMapOf. simpl. by rewrite HA, lookup_insert_eq. }
  assert (HrB : rank (orderMapOf [B; A]) fB = 0%Z).
  { unfold rank, orderMapOf. simpl. rewrite HB.
    rewrite lookup_insert_ne by done. by rewrite lookup_insert_eq. }
  assert (HrC : rank (orderMapOf [B; A]) fC = MaxInt32).
  { unfold rank, orderMapOf. simpl. rewrite HC.
    rewrite !lookup_insert_ne by done. by rewrite lookup_empty. }
  cbn [Sort.SliceStable Sort.insert]. unfold Sort.less_key.
  rewrite HrB, HrC. change (MaxInt32 <? 0)%Z with false. cbv iota.
  cbn [Sort.insert]. rewrite HrA, HrB. change (0 <? 1)%Z with true. cbv iota.
  cbn [Sort.insert]. rewrite ?HrA, ?HrC. reflexivity.
Qed.

(** *** Further facts on order lists and ranks *)

(** X4: the update of an order list never loses an entry.  The new list
    holds the accessed name and every previous entry, the entries other
    than the name are the previous ones in their previous order, the name
    is in front, the list grows by at most one entry, and the flag is
    kept. *)
Theorem bringToFront_keeps_entries (name : string) (order : envOrder) :
  let new := entries (bringToFront name order) in
  (forall x, In x new <-> x = name \/ In x (entries order)) /\
  others name new = others name (entries order) /\
  hd_error new = Some name /\
  length new <= S (length (entries order)) /\
  Fixed (bringToFront name order) = Fixed order.
Proof.
  cbn zeta. rewrite bringToFront_unfold.
  change (entries (mkEnvOrder (Fixed order)
                     (Some (name :: others name (entries order)))))
    with (name :: others name (entries order)).
  split; [|split; [|split; [|split]]].
  - intros x. split.
    + intros [<-|Hx]; [by left|]. apply In_others in Hx. right. tauto.
    + intros [->|Hx]; [by left|].
      destruct (String.string_dec x name) as [->|Hne]; [by left|].
      right. apply In_others. tauto.
  - apply others_idem.
  - reflexivity.
  - cbn [length]. apply le_n_S. unfold others. apply List.filter_length_le.
  - reflexivity.
Qed.




Lemma sortEnvFiles_perm (order : envOrder) (envFiles : list FileInfo) :
  Permutation (sortEnvFiles order envFiles) envFiles.
Proof.
  unfold sortEnvFiles. destruct (Order order) as [[|name names]|]; try done.
  apply Sort.SliceStable_perm.
Qed.




(** The rank of a listed file is the index of the last occurrence of its
    name. *)
Lemma rank_last (names : list string) (fi : FileInfo) (k : nat) :
  nth_error names k = Some (Name fi) ->
  (forall k', k < k' -> nth_error names k' <> Some (Name fi)) ->
  rank (orderMapOf names) fi = Z.of_nat k.
Proof.
  intros Hk Hlast.
  assert (Hr : ranked names fi = true).
  { apply ranked_In. eapply nth_error_In. exact Hk. }
  destruct (rank_ranked names fi Hr) as (k0 & -> & Hk0 & Hlast0).
  f_equal. destruct (Nat.lt_trichotomy k0 k) as [Hlt|[->|Hlt]]; [|done|].
  - by destruct (Hlast0 k Hlt).
  - by destruct (Hlast k0 Hlt).
Qed.

(** A list that repeats one name [S n] times and ends in another one. *)
Lemma repeat_then_last (front last_ x : string) (n : nat) :
  let names := front :: repeat front n ++ [last_] in
  nth_error names (S n) = Some last_ /\
  (forall k', S n < k' -> nth_error names k' <> Some last_) /\
  (x <> front -> x <> last_ -> ~ In x names).
Proof.
  cbn zeta. split; [|split].
  - cbn [nth_error]. rewrite nth_error_app2; rewrite repeat_length; [|done].
    by rewrite Nat.sub_diag.
  - intros k' Hk' Hnth.
    assert (Hlen : k' < length (front :: repeat front n ++ [last_])).
    { apply nth_error_Some. by rewrite Hnth. }
    cbn [length] in Hlen. rewrite length_app, repeat_length in Hlen.
    simpl in Hlen. lia.
  - intros H1 H2 [Hin|Hin]; [by destruct H1|].
    apply in_app_or in Hin as [Hin|[Hin|[]]].
    + apply repeat_spec in Hin. by destruct H1.
    + by destruct H2.
Qed.

Section Store.

Set Default Proof Using "Type".

(** The record type the store is used at, and the codecs, which are
    collaborators: [jcrypt.Marshal], [jcrypt.Unmarshal] (which fills its
    target in place), and [encoding/json] at type [envOrder]. *)
Variable EnvT : Type.
Variable jcrypt_Marshal : EnvT -> GetKeyHandler -> string + error.
Variable jcrypt_Unmarshal : string -> EnvT -> GetKeyHandler -> EnvT * option error.
Variable json_Marshal : envOrder -> string + error.
Variable json_Unmarshal : string -> envOrder + error.

(** [EnterEnvHandler]: fills the target in place and may fail. *)
Definition EnterEnvHandler : Type := string -> EnvT -> EnvT * option error.

(** [GetEnvFileTitleHandler]: a title for an environment and its file. *)
Definition GetEnvFileTitleHandler : Type := string -> string -> string.

(** [Reader]; a nil handler is [None].  The fields [EnterEnvHandler] and
    [GetEnvFileTitle] carry the name of the record in front, their own names
    being those of the handler types. *)
Record Reader : Type := mkReader {
  dir : string;
  KeySource : option GetKeyHandler;
  Reader_EnterEnvHandler : option EnterEnvHandler;
  Reader_GetEnvFileTitle : option GetEnvFileTitleHandler
}.

(** [jcrypt.MarshalToFile]: encode, then write the file. *)
Definition jcrypt_MarshalToFile (file : string) (env : EnvT)
    (keySource : GetKeyHandler) : M (option error) :=
  match jcrypt_Marshal env keySource with
  | inr err => ret (Some err)
  | inl data => WriteFile file data
  end.

(** [jcrypt.UnmarshalFromFile]: read the file, then decode into [env]. *)
Definition jcrypt_UnmarshalFromFile (file : string) (env : EnvT)
    (keySource : GetKeyHandler) : M (EnvT * option error) :=
  do r <- ReadFile file;
  match r with
  | inr err => ret (env, Some err)
  | inl data => ret (jcrypt_Unmarshal data env keySource)
  end.

Definition getEnvFilePath (e : Reader) (envName : string) : string :=
  Filepath.Join (dir e) (envName +:+ ".json").

Definition envOrderPath (e : Reader) : string :=
  Filepath.Join (dir e) envOrderFileName.

Definition readEnvOrder (e : Reader) : M (envOrder * option error) :=
  do r <- ReadFile (envOrderPath e);
  match r with
  | inr _ => ret (mkEnvOrder false (Some []), None)
  | inl orderData =>
      match json_Unmarshal orderData with
      | inr _ => ret (mkEnvOrder false (Some []), None)
      | inl order => ret (order, None)
      end
  end.

Definition writeEnvOrder (e : Reader) (order : envOrder) : M (option error) :=
  match json_Marshal order with
  | inr err => ret (Some err)
  | inl orderData => WriteFile (envOrderPath e) orderData
  end.

Definition envOrderBringToFront (e : Reader) (name : string)
  : M (option error) :=
  do r <- readEnvOrder e;
  match r with
  | (_, Some err) => ret (Some err)
  | (order, None) =>
      if Fixed order then ret None
      else writeEnvOrder e (bringToFront (normalize name) order)
  end.

Definition createOrReadEnvironment (e : Reader) (envName : string)
    (env : EnvT) (enterEnvHandler : option EnterEnvHandler)
  : M (EnvT * option error) :=
  let file := getEnvFilePath e envName in
  do r <- isFile file;
  match r with
  | (_, Some err) => ret (env, Some err)
  | (exists_, None) =>
      let keySource : GetKeyHandler :=
        match KeySource e with
        | Some k => k
        | None => fun _ => inl ""
        end in
      if negb exists_ then
        match enterEnvHandler with
        | Some handler =>
            do _ <- Printlnf
                      "Environment %q does not exist yet, pleaser enter below:"
                      (ArgStr envName);
            match handler envName env with
            | (env1, Some err) => ret (env1, Some err)
            | (env1, None) =>
                do merr <- MkdirAll (dir e);
                do _ <- match merr with
                        | Some err =>
                            Printlnf "WARNING: failed to save environment: %s"
                                     (ArgErrText err)
                        | None =>
                            do werr <- jcrypt_MarshalToFile file env1 keySource;
                            match werr with
                            | Some err =>
                                Printlnf
                                  "WARNING: failed to save environment: %s"
                                  (ArgErrText err)
                            | None => ret tt
                            end
                        end;
                do _ <- envOrderBringToFront e envName;
                ret (env1, None)
            end
        | None => ret (env, Some (Errorf "environment %q not found" envName))
        end
      else
        do r <- jcrypt_UnmarshalFromFile file env keySource;
        match r with
        | (env1, Some err) => ret (env1, Some err)
        | (env1, None) =>
            do _ <- envOrderBringToFront e envName;
            ret (env1, None)
        end
  end.

Definition ReadEnvironment (e : Reader) (envName : string) (env : EnvT)
  : M (EnvT * option error) :=
  createOrReadEnvironment e envName env None.

Definition CreateOrReadEnvironment (e : Reader) (envName : string) (env : EnvT)
  : M (EnvT * option error) :=
  createOrReadEnvironment e envName env (Reader_EnterEnvHandler e).

Definition GetEnvironmentFiles (e : Reader) : M (list FileInfo + error) :=
  do r <- ReadDir (dir e);
  match r with
  | inr err => if IsNotExist err then ret (inl []) else ret (inr err)
  | inl files =>
      let envFiles := fold_left (append_if isEnvFile) files [] in
      do o <- readEnvOrder e;
      ret (inl (sortEnvFiles (fst o) envFiles))
  end.

(** The title of one file in [ListEnvironments]: the name without its
    suffix, passed through the title handler if there is one. *)
Definition envTitle (e : Reader) (fi : FileInfo) : string :=
  let name :=
    if Str.HasSuffix (Name fi) ".json"
    then substring 0 (String.length (Name fi) - 5) (Name fi)
    else Name fi in
  match Reader_GetEnvFileTitle e with
  | Some title => title name (Filepath.Join (dir e) (Name fi))
  | None => name
  end.

Definition ListEnvironments (e : Reader) : M (list string + error) :=
  do r <- GetEnvironmentFiles e;
  match r with
  | inr err => ret (inr err)
  | inl envFiles =>
      match envFiles with
      | [] => ret (inl [])
      | _ => ret (inl (map (envTitle e) envFiles))
      end
  end.

Definition DeleteEnvironment (e : Reader) (envName : string)
  : M (option error) :=
  let file := getEnvFilePath e envName in
  do r <- isFile file;
  match r with
  | (_, Some err) => ret (Some err)
  | (exists_, None) =>
      if negb exists_ then
        ret (Some (Errorf "environment %q does not exist" envName))
      else Remove file
  end.

(** ** Running the operations *)

(** The ordering metadata as [readEnvOrder] loads it in world [w]. *)
Definition loadedOrder (e : Reader) (w : World) : envOrder :=
  fst (fst (readEnvOrder e w)).

Lemma readEnvOrder_run (e : Reader) (w : World) :
  readEnvOrder e w =
  (loadedOrder e w, None, log (EvSys (SysReadFile (envOrderPath e))) w).
Proof.
  unfold loadedOrder, readEnvOrder, bind. rewrite ReadFile_run.
  destruct (fault w _) as [err|]; [done|].
  destruct (fs w !! envOrderPath e) as [[data|]|]; try done.
  by destruct (json_Unmarshal data).
Qed.

Lemma loadedOrder_unfold (e : Reader) (w : World) :
  loadedOrder e w =
  match fault w (SysReadFile (envOrderPath e)) with
  | Some _ => emptyOrder
  | None => match fs w !! envOrderPath e with
            | Some (File data) => match json_Unmarshal data with
                                  | inl order => order
                                  | inr _ => emptyOrder
                                  end
            | _ => emptyOrder
            end
  end.
Proof.
  unfold loadedOrder, readEnvOrder, bind. rewrite ReadFile_run.
  destruct (fault w _) as [err|]; [done|].
  destruct (fs w !! envOrderPath e) as [[data|]|]; try done.
  by destruct (json_Unmarshal data).
Qed.

Lemma envOrderBringToFront_run (e : Reader) (name : string) (w : World) :
  envOrderBringToFront e name w =
  let w1 := log (EvSys (SysReadFile (envOrderPath e))) w in
  if Fixed (loadedOrder e w) then (None, w1)
  else writeEnvOrder e (bringToFront (normalize name) (loadedOrder e w)) w1.
Proof.
  unfold envOrderBringToFront, bind. rewrite readEnvOrder_run. simpl.
  by destruct (Fixed (loadedOrder e w)).
Qed.

(** ** Paths of the store *)

Lemma getEnvFilePath_last (e : Reader) (envName : string) :
  Filepath.last_elem (getEnvFilePath e envName) =
  Filepath.last_elem envName +:+ ".json".
Proof.
  unfold getEnvFilePath.
  rewrite Filepath.last_elem_Join;
    rewrite Filepath.last_elem_app_no_sep by reflexivity;
    [reflexivity|apply plain_json].
Qed.

Lemma envOrderPath_last (e : Reader) :
  Filepath.last_elem (envOrderPath e) = envOrderFileName.
Proof.
  unfold envOrderPath. rewrite Filepath.last_elem_Join; [reflexivity|].
  repeat split; discriminate.
Qed.

(** A record file is never the ordering file. *)
Lemma getEnvFilePath_ne_envOrderPath (e : Reader) (envName : string) :
  getEnvFilePath e envName <> envOrderPath e.
Proof.
  intros H. apply (f_equal Filepath.last_elem) in H.
  rewrite getEnvFilePath_last, envOrderPath_last in H.
  pose proof (Str.HasSuffix_app (Filepath.last_elem envName) ".json") as Hs.
  rewrite H in Hs. discriminate Hs.
Qed.

(** ** Reading the ordering file *)

(** The states of the ordering file that carry no ordering: missing, empty,
    or with content that does not parse. *)
Definition orderFileUnusable (e : Reader) (w : World) : Prop :=
  fs w !! envOrderPath e = None \/
  fs w !! envOrderPath e = Some (File "") \/
  exists data err,
    fs w !! envOrderPath e = Some (File data) /\ json_Unmarshal data = inr err.

Lemma GetEnvironmentFiles_run (e : Reader) (w : World) :
  fst (GetEnvironmentFiles e w) =
  match fst (ReadDir (dir e) w) with
  | inl files => inl (sortEnvFiles (loadedOrder e w) (List.filter isEnvFile files))
  | inr err => if IsNotExist err then inl [] else inr err
  end.
Proof.
  unfold GetEnvironmentFiles, bind.
  pose proof (ReadDir_world (dir e) w) as Hw.
  destruct (ReadDir (dir e) w) as [[files|err] w1]; simpl in *.
  - rewrite readEnvOrder_run. simpl. rewrite fold_append_if. simpl.
    subst w1. rewrite !loadedOrder_unfold. by rewrite fs_log, fault_log.
  - by destruct (IsNotExist err).
Qed.

(** C5: whatever the state of the ordering file, reading it returns no
    error; when the file is missing, empty or does not parse, the result is
    [{fixed: false, order: []}], and the listing is the record files among
    the directory entries, in enumeration order.  Hence two stores whose
    ordering files are in any of these states, and whose directories hold
    the same record files, are listed alike.  The ordering file itself is
    never listed. *)
Theorem readEnvOrder_absorbs_errors
    (Hempty : exists err, json_Unmarshal "" = inr err)
    (e : Reader) (w : World) :
  snd (fst (readEnvOrder e w)) = None /\
  (orderFileUnusable e w ->
     fst (readEnvOrder e w) = (mkEnvOrder false (Some []), None) /\
     fst (GetEnvironmentFiles e w) = unorderedListing (fst (ReadDir (dir e) w)) /\
     forall w',
       orderFileUnusable e w' ->
       unorderedListing (fst (ReadDir (dir e) w')) =
       unorderedListing (fst (ReadDir (dir e) w)) ->
       fst (GetEnvironmentFiles e w') = fst (GetEnvironmentFiles e w)) /\
  (forall fi, isEnvFile fi = true -> Name fi <> envOrderFileName).
Proof.
  assert (Hload : forall w0, orderFileUnusable e w0 -> loadedOrder e w0 = emptyOrder).
  { intros w0 Hbad. rewrite loadedOrder_unfold.
    destruct (fault w0 _) as [?|]; [done|].
    destruct Hempty as [err0 Hempty'].
    destruct Hbad as [-> | [-> | (data & err & -> & ->)]];
      [done| by rewrite Hempty' |done]. }
  assert (Hlist : forall w0, orderFileUnusable e w0 ->
            fst (GetEnvironmentFiles e w0) =
            unorderedListing (fst (ReadDir (dir e) w0))).
  { intros w0 Hbad. rewrite GetEnvironmentFiles_run, (Hload w0 Hbad).
    by destruct (fst (ReadDir (dir e) w0)). }
  split; [by rewrite readEnvOrder_run|]. split.
  - intros Hbad. split; [|split].
    + rewrite readEnvOrder_run. simpl. by rewrite (Hload w Hbad).
    + by apply Hlist.
    + intros w' Hbad' Hsame. by rewrite !Hlist, Hsame.
  - intros fi Hfi Hname. unfold isEnvFile in Hfi.
    rewrite Hname in Hfi. destruct (IsDir fi); vm_compute in Hfi; discriminate Hfi.
Qed.

(** ** Reading and creating records *)

(** The key source [createOrReadEnvironment] uses: the reader's, or the
    constant empty key. *)
Definition keySourceOf (e : Reader) : GetKeyHandler :=
  match KeySource e with
  | Some k => k
  | None => fun _ => inl ""
  end.

(** The attempt to save a freshly entered record: create the directory,
    write the record, and print a warning if either step fails. *)
Definition saveAttempt (e : Reader) (file : string) (env1 : EnvT) : M unit :=
  do merr <- MkdirAll (dir e);
  match merr with
  | Some err => Printlnf warning (ArgErrText err)
  | None =>
      do werr <- jcrypt_MarshalToFile file env1 (keySourceOf e);
      match werr with
      | Some err => Printlnf warning (ArgErrText err)
      | None => ret tt
      end
  end.

Lemma createOrReadEnvironment_run (e : Reader) (envName : string) (env : EnvT)
    (h : option EnterEnvHandler) (w : World) :
  createOrReadEnvironment e envName env h w =
  let file := getEnvFilePath e envName in
  let w0 := log (EvSys (SysStat file)) w in
  match fst (isFile file w) with
  | (_, Some err) => (env, Some err, w0)
  | (false, None) =>
      match h with
      | None => (env, Some (Errorf "environment %q not found" envName), w0)
      | Some handler =>
          let w1 := log (EvPrint notice (ArgStr envName)) w0 in
          match handler envName env with
          | (env1, Some err) => (env1, Some err, w1)
          | (env1, None) =>
              (env1, None,
               snd (envOrderBringToFront e envName
                      (snd (saveAttempt e file env1 w1))))
          end
      end
  | (true, None) =>
      let (r, w1) := jcrypt_UnmarshalFromFile file env (keySourceOf e) w0 in
      match r with
      | (env1, Some err) => (env1, Some err, w1)
      | (env1, None) => (env1, None, snd (envOrderBringToFront e envName w1))
      end
  end.
Proof.
  unfold createOrReadEnvironment. unfold bind at 1.
  rewrite isFile_run. cbn [fst snd].
  fold (keySourceOf e).
  match goal with
  | |- context [let (_, _) := ?r in _] => destruct r as [[|] [err|]]
  end; cbn [negb]; try reflexivity.
  - unfold bind.
    destruct (jcrypt_UnmarshalFromFile _ _ _ _) as [[env1 [err|]] w1];
      [reflexivity|].
    by destruct (envOrderBringToFront e envName w1).
  - destruct h as [handler|]; [|reflexivity].
    unfold bind at 1. unfold Printlnf at 1, emit at 1. fold notice.
    destruct (handler envName env) as [env1 [err|]]; [reflexivity|].
    fold warning. unfold saveAttempt, bind.
    destruct (MkdirAll (dir e) _) as [[err|] w2].
    + destruct (Printlnf _ _ w2) as [[] w3]. cbn [snd].
      by destruct (envOrderBringToFront e envName w3).
    + destruct (jcrypt_MarshalToFile _ _ _ w2) as [[err|] w3].
      * destruct (Printlnf _ _ w3) as [[] w4]. cbn [snd].
        by destruct (envOrderBringToFront e envName w4).
      * unfold ret. cbn [snd].
        by destruct (envOrderBringToFront e envName w3).
Qed.


(** ** Monotonicity of the trace *)

Lemma later_writeEnvOrder (e : Reader) (order : envOrder) (w : World) :
  later w (snd (writeEnvOrder e order w)).
Proof.
  unfold writeEnvOrder. destruct (json_Marshal order).
  - apply later_WriteFile.
  - apply later_refl.
Qed.

Lemma later_envOrderBringToFront (e : Reader) (name : string) (w : World) :
  later (log (EvSys (SysReadFile (envOrderPath e))) w)
        (snd (envOrderBringToFront e name w)).
Proof.
  rewrite envOrderBringToFront_run. cbn zeta.
  destruct (Fixed (loadedOrder e w)); [apply later_refl|].
  apply later_writeEnvOrder.
Qed.

(** Every run of the bring-to-front update starts by reading the ordering
    file. *)
Lemma envOrderBringToFront_reads (e : Reader) (name : string) (w : World) :
  In (EvSys (SysReadFile (envOrderPath e)))
     (trace (snd (envOrderBringToFront e name w))).
Proof.
  eapply later_In; [apply later_envOrderBringToFront|].
  rewrite trace_log. apply in_or_app. right. by left.
Qed.

Lemma later_jcrypt_MarshalToFile (file : string) (env : EnvT)
    (k : GetKeyHandler) (w : World) :
  later w (snd (jcrypt_MarshalToFile file env k w)).
Proof.
  unfold jcrypt_MarshalToFile. destruct (jcrypt_Marshal env k).
  - apply later_WriteFile.
  - apply later_refl.
Qed.

Lemma saveAttempt_run (e : Reader) (file : string) (env1 : EnvT) (w : World) :
  snd (saveAttempt e file env1 w) =
  match fst (MkdirAll (dir e) w) with
  | Some err => log (EvPrint warning (ArgErrText err)) (snd (MkdirAll (dir e) w))
  | None =>
      let r := jcrypt_MarshalToFile file env1 (keySourceOf e)
                 (snd (MkdirAll (dir e) w)) in
      match fst r with
      | Some err => log (EvPrint warning (ArgErrText err)) (snd r)
      | None => snd r
      end
  end.
Proof.
  unfold saveAttempt, bind.
  destruct (MkdirAll (dir e) w) as [[err|] w2]; cbn [fst snd]; [reflexivity|].
  by destruct (jcrypt_MarshalToFile _ _ _ w2) as [[err|] w3].
Qed.

Lemma later_saveAttempt (e : Reader) (file : string) (env1 : EnvT) (w : World) :
  later (log (EvSys (SysMkdirAll (dir e))) w) (snd (saveAttempt e file env1 w)).
Proof.
  rewrite saveAttempt_run.
  pose proof (later_MkdirAll (dir e) w) as Hm.
  destruct (fst (MkdirAll (dir e) w)) as [err|].
  - eapply later_trans; [exact Hm|apply later_log].
  - cbn zeta.
    pose proof (later_jcrypt_MarshalToFile file env1 (keySourceOf e)
                  (snd (MkdirAll (dir e) w))) as Hj.
    destruct (fst (jcrypt_MarshalToFile _ _ _ _)) as [err|].
    + eapply later_trans; [exact Hm|].
      eapply later_trans; [exact Hj|apply later_log].
    + eapply later_trans; [exact Hm|exact Hj].
Qed.

(** C1: the record file is not there and a capture handler is given.  If
    the handler fails, its error is returned and nothing else happens: the
    files are unchanged and the only events are the existence check and the
    notice on the console.  If the handler succeeds, the operation succeeds
    with the value the handler filled in, whatever the outcome of the save:
    a failing directory creation or record write only prints a warning, and
    the bring-to-front update runs after the save attempt in every case. *)
Theorem createOrReadEnvironment_capture (e : Reader) (envName : string)
    (env : EnvT) (handler : EnterEnvHandler) (w : World)
    (Habsent : fst (isFile (getEnvFilePath e envName) w) = (false, None)) :
  let file := getEnvFilePath e envName in
  let w1 := log (EvPrint notice (ArgStr envName)) (log (EvSys (SysStat file)) w) in
  let r := createOrReadEnvironment e envName env (Some handler) w in
  (forall env1 err,
     handler envName env = (env1, Some err) ->
     fst r = (env1, Some err) /\
     fs (snd r) = fs w /\
     trace (snd r) =
       trace w ++ [EvSys (SysStat file); EvPrint notice (ArgStr envName)] /\
     Forall (fun ev => mutation ev = false)
            [EvSys (SysStat file); EvPrint notice (ArgStr envName)]) /\
  (forall env1,
     handler envName env = (env1, None) ->
     fst r = (env1, None) /\
     snd r = snd (envOrderBringToFront e envName
                    (snd (saveAttempt e file env1 w1))) /\
     In (EvSys (SysMkdirAll (dir e))) (trace (snd r)) /\
     In (EvSys (SysReadFile (envOrderPath e))) (trace (snd r)) /\
     (forall err,
        fst (MkdirAll (dir e) w1) = Some err ->
        In (EvPrint warning (ArgErrText err)) (trace (snd r))) /\
     (forall err,
        fst (MkdirAll (dir e) w1) = None ->
        fst (jcrypt_MarshalToFile file env1 (keySourceOf e)
               (snd (MkdirAll (dir e) w1))) = Some err ->
        In (EvPrint warning (ArgErrText err)) (trace (snd r)))).
Proof.
  cbn zeta. rewrite createOrReadEnvironment_run. cbn zeta.
  rewrite Habsent. split.
  - intros env1 err ->. cbn [fst snd].
    repeat split; try reflexivity.
    + rewrite !trace_log. by rewrite <- app_assoc.
    + by repeat constructor.
  - intros env1 ->. cbn [fst snd].
    set (w1 := log (EvPrint notice (ArgStr envName)) _).
    set (wp := snd (saveAttempt e (getEnvFilePath e envName) env1 w1)).
    assert (Hlater : later wp (snd (envOrderBringToFront e envName wp))).
    { eapply later_trans; [apply later_log|apply later_envOrderBringToFront]. }
    repeat split.
    + eapply later_In; [exact Hlater|].
      eapply later_In; [apply later_saveAttempt|apply In_trace_log].
    + apply envOrderBringToFront_reads.
    + intros err Hm. eapply later_In; [exact Hlater|].
      unfold wp. rewrite saveAttempt_run, Hm. apply In_trace_log.
    + intros err Hm Hj. eapply later_In; [exact Hlater|].
      unfold wp. rewrite saveAttempt_run, Hm. cbn zeta. rewrite Hj.
      apply In_trace_log.
Qed.

(** C10: once the record has been read or captured, the operation reports
    success and returns the record: the result of the bring-to-front update
    that follows is dropped, so a failure to write the ordering file never
    reaches the caller. *)
Theorem createOrReadEnvironment_drops_order_error (e : Reader)
    (envName : string) (env env1 : EnvT) (h : option EnterEnvHandler)
    (w : World)
    (Hdone :
       let file := getEnvFilePath e envName in
       let w0 := log (EvSys (SysStat file)) w in
       (fst (isFile file w) = (true, None) /\
        fst (jcrypt_UnmarshalFromFile file env (keySourceOf e) w0) = (env1, None))
       \/
       (fst (isFile file w) = (false, None) /\
        exists handler, h = Some handler /\ handler envName env = (env1, None))) :
  let r := createOrReadEnvironment e envName env h w in
  fst r = (env1, None) /\
  exists wp, snd r = snd (envOrderBringToFront e envName wp) /\
             forall err, fst (envOrderBringToFront e envName wp) = Some err ->
                         fst r = (env1, None).
Proof.
  cbn zeta in *. rewrite createOrReadEnvironment_run. cbn zeta.
  destruct Hdone as [[Hfile Hread] | [Hfile (handler & -> & Hh)]];
    rewrite Hfile.
  - destruct (jcrypt_UnmarshalFromFile _ _ _ _) as [[env2 oerr] w1].
    cbn [fst] in Hread. injection Hread as -> ->. cbn [fst snd].
    split; [reflexivity|]. by exists w1.
  - rewrite Hh. cbn [fst snd]. split; [reflexivity|]. eauto.
Qed.

(** ** The ordering file is left alone *)

Lemma keeps_jcrypt_MarshalToFile (p file : string) (env : EnvT)
    (k : GetKeyHandler) (w : World) :
  file <> p -> keeps p w (snd (jcrypt_MarshalToFile file env k w)).
Proof.
  intros Hne. unfold jcrypt_MarshalToFile. destruct (jcrypt_Marshal env k).
  - by apply keeps_WriteFile.
  - apply keeps_refl.
Qed.

Lemma keeps_jcrypt_UnmarshalFromFile (p file : string) (env : EnvT)
    (k : GetKeyHandler) (w : World) :
  keeps p w (snd (jcrypt_UnmarshalFromFile file env k w)).
Proof.
  unfold jcrypt_UnmarshalFromFile, bind. rewrite ReadFile_run.
  assert (Hlog : keeps p w (log (EvSys (SysReadFile file)) w))
    by by apply keeps_log.
  match goal with
  | |- context [match ?r with inl _ => _ | inr _ => _ end] => destruct r
  end; exact Hlog.
Qed.

Lemma keeps_saveAttempt (p file d : string) (e : Reader) (env1 : EnvT)
    (w : World) :
  file <> p -> fs w !! p = Some (File d) ->
  keeps p w (snd (saveAttempt e file env1 w)).
Proof.
  intros Hne Hp. rewrite saveAttempt_run.
  pose proof (keeps_MkdirAll p (dir e) d w Hp) as Hm.
  destruct (fst (MkdirAll (dir e) w)) as [err|].
  - eapply keeps_trans; [exact Hm|]. by apply keeps_log.
  - cbn zeta.
    pose proof (keeps_jcrypt_MarshalToFile p file env1 (keySourceOf e)
                  (snd (MkdirAll (dir e) w)) Hne) as Hj.
    destruct (fst (jcrypt_MarshalToFile _ _ _ _)) as [err|].
    + eapply keeps_trans; [exact Hm|].
      eapply keeps_trans; [exact Hj|]. by apply keeps_log.
    + eapply keeps_trans; [exact Hm|exact Hj].
Qed.

Lemma loadedOrder_keeps (e : Reader) (w w' : World) :
  keeps (envOrderPath e) w w' -> loadedOrder e w' = loadedOrder e w.
Proof.
  intros (Hf & Hs & _). rewrite !loadedOrder_unfold. by rewrite Hf, Hs.
Qed.

(** A pinned order can only come from an ordering file that was read. *)
Lemma Fixed_loadedOrder_file (e : Reader) (w : World) :
  Fixed (loadedOrder e w) = true ->
  exists data, fs w !! envOrderPath e = Some (File data).
Proof.
  rewrite loadedOrder_unfold.
  destruct (fault w _) as [err|]; [discriminate|].
  destruct (fs w !! envOrderPath e) as [[data|]|]; try discriminate. eauto.
Qed.

Lemma envOrderBringToFront_fixed (e : Reader) (name : string) (w : World) :
  Fixed (loadedOrder e w) = true ->
  envOrderBringToFront e name w =
  (None, log (EvSys (SysReadFile (envOrderPath e))) w).
Proof. intros H. rewrite envOrderBringToFront_run. cbn zeta. by rewrite H. Qed.

Lemma keeps_createOrReadEnvironment (e : Reader) (envName : string)
    (env : EnvT) (h : option EnterEnvHandler) (w : World) :
  Fixed (loadedOrder e w) = true ->
  keeps (envOrderPath e) w (snd (createOrReadEnvironment e envName env h w)).
Proof.
  intros Hfixed. set (p := envOrderPath e).
  destruct (Fixed_loadedOrder_file e w Hfixed) as [d Hd].
  rewrite createOrReadEnvironment_run. cbn zeta.
  set (file := getEnvFilePath e envName).
  assert (H0 : keeps p w (log (EvSys (SysStat file)) w)) by by apply keeps_log.
  assert (Hupdate : forall w1, keeps p w w1 ->
            keeps p w (snd (envOrderBringToFront e envName w1))).
  { intros w1 Hw1. rewrite envOrderBringToFront_fixed.
    - eapply keeps_trans; [exact Hw1|]. by apply keeps_log.
    - by rewrite (loadedOrder_keeps e w w1 Hw1). }
  destruct (fst (isFile file w)) as [[|] [err|]]; cbn [snd]; try exact H0.
  - pose proof (keeps_jcrypt_UnmarshalFromFile p file env (keySourceOf e)
                  (log (EvSys (SysStat file)) w)) as Hr.
    destruct (jcrypt_UnmarshalFromFile _ _ _ _) as [[env1 [err|]] w1];
      cbn [snd] in *.
    + eapply keeps_trans; [exact H0|exact Hr].
    + apply Hupdate. eapply keeps_trans; [exact H0|exact Hr].
  - destruct h as [handler|]; cbn [snd]; [|exact H0].
    assert (H1 : keeps p w (log (EvPrint notice (ArgStr envName))
                              (log (EvSys (SysStat file)) w))).
    { eapply keeps_trans; [exact H0|]. by apply keeps_log. }
    destruct (handler envName env) as [env1 [err|]]; cbn [snd]; [exact H1|].
    apply Hupdate. eapply keeps_trans; [exact H1|].
    apply (keeps_saveAttempt p file d).
    + apply getEnvFilePath_ne_envOrderPath.
    + by rewrite !fs_log.
Qed.

(** One access to the store: a read (no handler) or a create-or-read. *)
Record access : Type := mkAccess {
  acc_name : string;
  acc_env : EnvT;
  acc_handler : option EnterEnvHandler
}.

Definition runAccess (e : Reader) (w : World) (a : access) : World :=
  snd (createOrReadEnvironment e (acc_name a) (acc_env a) (acc_handler a) w).

(** The world after a sequence of accesses. *)
Definition runAccesses (e : Reader) (accesses : list access) (w : World)
  : World :=
  fold_left (runAccess e) accesses w.

(** C4: when the ordering metadata loaded from the ordering file is pinned,
    the bring-to-front update returns success without writing, and any
    sequence of reads and create-or-reads leaves the ordering file as it
    was: same content, hence the same order list and the same flag, and no
    write to it in the trace. *)
Theorem fixed_order_is_frozen (e : Reader) (accesses : list access) (w : World)
    (Hfixed : Fixed (loadedOrder e w) = true) :
  let w' := runAccesses e accesses w in
  fs w' !! envOrderPath e = fs w !! envOrderPath e /\
  loadedOrder e w' = loadedOrder e w /\
  (forall data, In (EvSys (SysWriteFile (envOrderPath e) data)) (trace w') ->
                In (EvSys (SysWriteFile (envOrderPath e) data)) (trace w)) /\
  (forall name,
     envOrderBringToFront e name w' =
     (None, log (EvSys (SysReadFile (envOrderPath e))) w')).
Proof.
  cbn zeta.
  assert (Hkeeps : keeps (envOrderPath e) w (runAccesses e accesses w)).
  { revert w Hfixed. induction accesses as [|a accesses IH]; intros w Hfixed.
    - apply keeps_refl.
    - simpl. pose proof (keeps_createOrReadEnvironment e (acc_name a)
        (acc_env a) (acc_handler a) w Hfixed) as Ha.
      eapply keeps_trans; [exact Ha|]. apply IH.
      unfold runAccess. by rewrite (loadedOrder_keeps e w _ Ha). }
  pose proof (loadedOrder_keeps e w _ Hkeeps) as Hload.
  destruct Hkeeps as (Hf & Hs & Ht).
  repeat split; try done.
  intros name. apply envOrderBringToFront_fixed. by rewrite Hload.
Qed.

(** ** Deleting a record *)


(** ** The bring-to-front update *)

Lemma writeEnvOrder_ok (e : Reader) (order : envOrder) (w : World) :
  fst (writeEnvOrder e order w) = None ->
  exists data,
    json_Marshal order = inl data /\
    fault w (SysWriteFile (envOrderPath e) data) = None /\
    parent_error (fs w) (envOrderPath e) = None /\
    fs w !! envOrderPath e <> Some Dir /\
    snd (writeEnvOrder e order w) =
      set_fs (<[envOrderPath e := File data]> (fs w))
             (log (EvSys (SysWriteFile (envOrderPath e) data)) w).
Proof.
  unfold writeEnvOrder. destruct (json_Marshal order) as [data|err];
    [|discriminate].
  rewrite WriteFile_run. cbn zeta. intros Hok. exists data.
  destruct (fault w _) as [err|]; [discriminate|].
  destruct (parent_error (fs w) (envOrderPath e)) as [err|]; [discriminate|].
  destruct (fs w !! envOrderPath e) as [[d|]|]; try discriminate; by repeat split.
Qed.

(** C3 (amended): when the loaded ordering metadata is not pinned and the
    update succeeds, the ordering file then holds the encoding of: the same
    flag, and the normalized name followed by the previous entries other
    than it, in their previous order.  The name occurs exactly once in the
    new list; the new list is free of duplicates when the previous one was;
    a name that was not listed is put in front of the unchanged list; and a
    second update with the same name, reading back what the first one wrote,
    writes the same content again. *)
Theorem envOrderBringToFront_moves_to_front (e : Reader) (name : string)
    (w : World)
    (Hfree : Fixed (loadedOrder e w) = false)
    (Hok : fst (envOrderBringToFront e name w) = None) :
  let p := envOrderPath e in
  let old := entries (loadedOrder e w) in
  let front := normalize name in
  let new := mkEnvOrder false (Some (front :: others front old)) in
  let w1 := snd (envOrderBringToFront e name w) in
  (exists data, json_Marshal new = inl data /\
                fs w1 = <[p := File data]> (fs w)) /\
  List.filter (String.eqb front) (entries new) = [front] /\
  (List.NoDup old -> List.NoDup (entries new)) /\
  (~ In front old -> entries new = front :: old) /\
  (forall data,
     json_Marshal new = inl data ->
     json_Unmarshal data = inl new ->
     fault w (SysReadFile p) = None ->
     loadedOrder e w1 = new /\
     fst (envOrderBringToFront e name w1) = None /\
     fs (snd (envOrderBringToFront e name w1)) = fs w1).
Proof.
  cbn zeta. rewrite envOrderBringToFront_run in Hok |- *. cbn zeta in Hok |- *.
  rewrite Hfree in Hok |- *. rewrite bringToFront_unfold, Hfree in Hok |- *.
  set (old := entries (loadedOrder e w)) in Hok |- *.
  set (front := normalize name) in Hok |- *.
  set (new := mkEnvOrder false (Some (front :: others front old))) in Hok |- *.
  set (p := envOrderPath e) in Hok |- *.
  destruct (writeEnvOrder_ok e new _ Hok)
    as (data & Hdata & Hfault & Hparent & Hdir & Hw1).
  rewrite Hw1. cbn [fs set_fs]. rewrite fs_log.
  split; [by exists data|].
  split; [apply bringToFront_once|].
  split; [apply bringToFront_NoDup|].
  split; [intros Hnot; unfold entries; simpl; by rewrite others_notin|].
  intros data' Hdata' Hback Hread.
  rewrite Hdata in Hdata'. injection Hdata' as <-.
  set (w1 := set_fs _ _).
  assert (Hload : loadedOrder e w1 = new).
  { rewrite loadedOrder_unfold. unfold w1. cbn [fault fs set_fs].
    rewrite !fault_log. fold p. rewrite Hread, lookup_insert_eq.
    by rewrite Hback. }
  split; [exact Hload|].
  rewrite envOrderBringToFront_run. cbn zeta. rewrite Hload. cbn [Fixed new].
  change (normalize name) with front. fold p.
  replace (bringToFront front new) with new.
  2:{ rewrite bringToFront_unfold.
      change (entries new) with (front :: others front old).
      by rewrite others_idem. }
  unfold writeEnvOrder. rewrite Hdata, WriteFile_run. cbn zeta. fold p.
  assert (Hf1 : fault (log (EvSys (SysReadFile p)) w1) (SysWriteFile p data)
                = None) by exact Hfault.
  assert (Hs1 : fs (log (EvSys (SysReadFile p)) w1) !! p = Some (File data)).
  { rewrite fs_log. unfold w1. cbn [fs set_fs]. apply lookup_insert_eq. }
  assert (Hp1 : parent_error (fs (log (EvSys (SysReadFile p)) w1)) p = None).
  { rewrite fs_log. unfold w1. cbn [fs set_fs].
    by apply parent_error_insert. }
  rewrite Hf1, Hp1, Hs1. cbn [fst snd fs set_fs]. rewrite fs_log.
  split; [reflexivity|]. unfold w1. cbn [fs set_fs].
  by rewrite insert_insert_eq.
Qed.

(** ** The order of the listing *)

(** Listing reads and does not write: the files and the environment are
    the same after it. *)
Lemma GetEnvironmentFiles_world (e : Reader) (w : World) :
  let w' := snd (GetEnvironmentFiles e w) in
  fs w' = fs w /\ fault w' = fault w.
Proof.
  cbn zeta. unfold GetEnvironmentFiles, bind.
  pose proof (ReadDir_world (dir e) w) as Hw.
  destruct (ReadDir (dir e) w) as [[files|err] w1]; simpl in *; subst w1.
  - by rewrite readEnvOrder_run.
  - by destruct (IsNotExist err).
Qed.

Lemma GetEnvironmentFiles_again (e : Reader) (w : World) :
  fst (GetEnvironmentFiles e (snd (GetEnvironmentFiles e w))) =
  fst (GetEnvironmentFiles e w).
Proof.
  destruct (GetEnvironmentFiles_world e w) as [Hs Hf].
  rewrite !GetEnvironmentFiles_run.
  rewrite (ReadDir_frame _ _ _ Hs Hf).
  rewrite !loadedOrder_unfold. by rewrite Hs, Hf.
Qed.

(** Below the sentinel the listing is ordered as intended: for a
    non-empty order list of at most [MaxInt32] entries, the listing is the
    record files among the directory entries, sorted by rank; files of
    equal rank keep their enumeration order; the unlisted files come after
    all listed ones, in enumeration order.  The rank of a listed file is
    the index of the last occurrence of its name in the order list (its
    index, when the list has no duplicates).  With order list [[B, A]] and
    record files enumerated [[A, B, C]] the listing is [[B, A, C]], and
    listing again gives the same result. *)
Theorem GetEnvironmentFiles_ordered (e : Reader) (w : World)
    (files : list FileInfo) (names : list string)
    (Hdir : fst (ReadDir (dir e) w) = inl files)
    (Horder : Order (loadedOrder e w) = Some names)
    (Hne : names <> [])
    (Hlen : (Z.of_nat (length names) <= MaxInt32)%Z) :
  let envFiles := List.filter isEnvFile files in
  let key := rank (orderMapOf names) in
  exists sorted,
    fst (GetEnvironmentFiles e w) = inl sorted /\
    Permutation sorted envFiles /\
    StronglySorted (fun a b => (key a <= key b)%Z) sorted /\
    (forall k, List.filter (fun fi => (key fi =? k)%Z) sorted =
               List.filter (fun fi => (key fi =? k)%Z) envFiles) /\
    sorted = List.filter (ranked names) sorted ++
             List.filter (fun fi => negb (ranked names fi)) envFiles /\
    (forall fi, ranked names fi = true ->
                exists k : nat,
                  key fi = Z.of_nat k /\
                  nth_error names k = Some (Name fi) /\
                  forall k', k < k' -> nth_error names k' <> Some (Name fi)) /\
    (forall fi i, List.NoDup names -> nth_error names i = Some (Name fi) ->
                  key fi = Z.of_nat i) /\
    (forall fA fB fC,
       names = [Name fB; Name fA] -> envFiles = [fA; fB; fC] ->
       Name fA <> Name fB -> Name fC <> Name fA -> Name fC <> Name fB ->
       sorted = [fB; fA; fC]) /\
    fst (GetEnvironmentFiles e (snd (GetEnvironmentFiles e w))) = inl sorted.
Proof.
  cbn zeta.
  assert (Hload : loadedOrder e w = mkEnvOrder (Fixed (loadedOrder e w)) (Some names)).
  { destruct (loadedOrder e w) as [fixed o]. simpl in *. by subst o. }
  set (envFiles := List.filter isEnvFile files).
  exists (sortEnvFiles (loadedOrder e w) envFiles).
  assert (Hlist : fst (GetEnvironmentFiles e w) =
                  inl (sortEnvFiles (loadedOrder e w) envFiles)).
  { by rewrite GetEnvironmentFiles_run, Hdir. }
  rewrite GetEnvironmentFiles_again, Hlist. rewrite Hload.
  destruct (sortEnvFiles_spec (Fixed (loadedOrder e w)) names envFiles Hne Hlen)
    as (Hperm & Hsorted & Hstable & Hsplit).
  repeat split; try done.
  - intros fi Hr. by apply rank_ranked.
  - intros fi i Hnd Hi. by apply rank_index.
  - intros fA fB fC -> -> HAB HCA HCB.
    by apply (sortEnvFiles_B_A_C _ (Name fA) (Name fB) (Name fC)).
Qed.

(** C2, at the failing inputs: an unlisted file gets the sort key
    [math.MaxInt32] and a listed file the index of the last occurrence of
    its name, so a file listed only beyond index [MaxInt32] has the larger
    key: the sort leaves an unlisted file that is enumerated before it in
    front of it, and the listing has the unlisted file before the listed
    one. *)
Theorem GetEnvironmentFiles_sentinel_collides (e : Reader) (fixed : bool)
    (names : list string) (a c : FileInfo) (k : nat)
    (Hunlisted : ~ In (Name a) names)
    (Hlisted : nth_error names k = Some (Name c))
    (Hlast : forall k', k < k' -> nth_error names k' <> Some (Name c))
    (Hbeyond : (MaxInt32 < Z.of_nat k)%Z) :
  ranked names a = false /\ ranked names c = true /\
  rank (orderMapOf names) a = MaxInt32 /\
  rank (orderMapOf names) c = Z.of_nat k /\
  less (orderMapOf names) c a = false /\
  sortEnvFiles (mkEnvOrder fixed (Some names)) [a; c] = [a; c] /\
  (forall w files,
     fst (ReadDir (dir e) w) = inl files ->
     List.filter isEnvFile files = [a; c] ->
     loadedOrder e w = mkEnvOrder fixed (Some names) ->
     fst (GetEnvironmentFiles e w) = inl [a; c]).
Proof.
  assert (Ha : ranked names a = false).
  { destruct (ranked names a) eqn:Hr; [|reflexivity].
    apply ranked_In in Hr. by destruct Hunlisted. }
  assert (Hc : ranked names c = true).
  { apply ranked_In. eapply nth_error_In. exact Hlisted. }
  assert (Hra : rank (orderMapOf names) a = MaxInt32)
    by by apply rank_unranked.
  assert (Hrc : rank (orderMapOf names) c = Z.of_nat k)
    by by apply rank_last.
  assert (Hless : less (orderMapOf names) c a = false).
  { unfold less. rewrite Hra, Hrc. apply Z.ltb_ge. lia. }
  assert (Hsort : sortEnvFiles (mkEnvOrder fixed (Some names)) [a; c] = [a; c]).
  { rewrite sortEnvFiles_nonempty.
    - cbn [Sort.SliceStable Sort.insert].
      change (Sort.less_key (rank (orderMapOf names)) c a)
        with (less (orderMapOf names) c a).
      by rewrite Hless.
    - intros ->. by destruct k. }
  repeat split; try done.
  intros w files Hdir Hfiles Hload.
  by rewrite GetEnvironmentFiles_run, Hdir, Hfiles, Hload, Hsort.
Qed.

(** ** Names, paths and order entries *)

(** On identifiers without a separator the mapping to paths is injective,
    and the entry written for an identifier that does not end in the suffix
    is the name of its record file. *)
Lemma getEnvFilePath_inj_no_sep (e : Reader) (n1 n2 : string) :
  Filepath.has_sep n1 = false -> Filepath.has_sep n2 = false ->
  getEnvFilePath e n1 = getEnvFilePath e n2 -> n1 = n2.
Proof.
  intros H1 H2 H. apply (f_equal Filepath.last_elem) in H.
  rewrite !getEnvFilePath_last in H.
  rewrite (Filepath.last_elem_no_sep n1 H1) in H.
  rewrite (Filepath.last_elem_no_sep n2 H2) in H.
  by apply Str.app_inj_r in H.
Qed.

Lemma normalize_is_file_name (e : Reader) (envName : string) :
  Filepath.has_sep envName = false ->
  Str.HasSuffix envName ".json" = false ->
  normalize envName = Filepath.last_elem (getEnvFilePath e envName).
Proof.
  intros Hsep Hbare. rewrite normalize_bare by done.
  rewrite getEnvFilePath_last. by rewrite Filepath.last_elem_no_sep.
Qed.

(** C6, at the failing inputs: for a reader with a directory, the
    identifiers [./name] and [name] are different and are mapped to the same
    path, because [filepath.Join] cleans the path it builds. *)
Theorem getEnvFilePath_not_injective (e : Reader) (envName : string)
    (Hdir : dir e <> "") :
  "./" +:+ envName <> envName /\
  getEnvFilePath e ("./" +:+ envName) = getEnvFilePath e envName.
Proof.
  split.
  - intros H. apply (f_equal String.length) in H.
    rewrite Str.length_app in H. simpl in H. lia.
  - unfold getEnvFilePath. rewrite Str.app_assoc.
    by apply Filepath.Join_dot.
Qed.

(** C7, at the failing inputs: for an identifier that ends in the suffix,
    the entry the update puts in front of the order list is the identifier
    itself, while the record is stored in a file with the suffix appended
    once more; the entry is not the name of the record file. *)
Theorem order_entry_is_not_file_name (e : Reader) (stem : string)
    (order : envOrder) :
  let envName := stem +:+ ".json" in
  let entry := normalize envName in
  let fileName := Filepath.last_elem (getEnvFilePath e envName) in
  hd_error (entries (bringToFront entry order)) = Some entry /\
  entry = envName /\
  fileName = Filepath.last_elem envName +:+ ".json" /\
  entry <> fileName.
Proof.
  cbn zeta. rewrite bringToFront_unfold.
  rewrite normalize_suffixed by apply Str.HasSuffix_app.
  rewrite getEnvFilePath_last. repeat split.
  by apply Filepath.last_elem_ne.
Qed.

(* ===================================================================== *)
(** ** The remaining operations *)
(* ===================================================================== *)

(** [user.User], reduced to the field the code reads, and [user.Current()],
    which asks the operating system for the current user. *)
Record User : Type := mkUser { HomeDir : string }.

Variable user_Current : User + error.

Definition getConfigDir : string * option error :=
  match user_Current with
  | inr err => ("", Some err)
  | inl usr => (HomeDir usr, None)
  end.

(** [NewReader]; the nil reader returned with an error is [None]. *)
Definition NewReader (homeDirName : string) : option Reader * option error :=
  match getConfigDir with
  | (_, Some err) => (None, Some err)
  | (dir, None) =>
      (Some (mkReader (Filepath.Join dir homeDirName) None None None), None)
  end.

(** [promptui.Select{Label, Items, HideSelected: true}.Run()]: the index the
    user chose, or an error such as an interrupt.  The label it also
    returns is dropped by the code. *)
Variable promptui_Run : string -> list string -> nat * option error.

(** [SelectEnvironment].  The result [None] stands for a run-time panic:
    an index outside [envFiles], or a file name shorter than the suffix
    that is cut off.  The error built from a format without verb has no
    argument, written as the empty string. *)
Definition SelectEnvironment (e : Reader) (env : EnvT)
  : M (option (EnvT * option error)) :=
  do r <- GetEnvironmentFiles e;
  match r with
  | inr err => ret (Some (env, Some err))
  | inl envFiles =>
      match envFiles with
      | [] => ret (Some (env, Some (Errorf "no environments specified" "")))
      | _ =>
          let envTitles := map (envTitle e) envFiles in
          match promptui_Run "Select environment" envTitles with
          | (_, Some err) => ret (Some (env, Some err))
          | (index, None) =>
              match nth_error envFiles index with
              | None => ret None
              | Some fi =>
                  let fileName := Name fi in
                  if Nat.ltb (String.length fileName) 5 then ret None
                  else
                    do r <- createOrReadEnvironment e
                              (substring 0 (String.length fileName - 5) fileName)
                              env None;
                    ret (Some r)
              end
          end
      end
  end.

(** ** Paths and names *)

(** A store directory as [NewReader] builds it: a clean path that is not
    the current directory or the root. *)
Definition properDir (e : Reader) : Prop :=
  Filepath.is_clean (dir e) /\ dir e <> "." /\ dir e <> "/".

Lemma getEnvFilePath_proper (e : Reader) (envName : string) :
  properDir e -> Filepath.has_sep envName = false ->
  getEnvFilePath e envName = dir e +:+ "/" +:+ envName +:+ ".json".
Proof.
  intros (Hc & Hd & Hr) Hsep. unfold getEnvFilePath.
  apply Filepath.Join_clean; try done.
  - apply plain_json.
  - by rewrite Filepath.has_sep_app, Hsep.
Qed.

Lemma envOrderPath_proper (e : Reader) :
  properDir e -> envOrderPath e = dir e +:+ "/" +:+ envOrderFileName.
Proof.
  intros (Hc & Hd & Hr). unfold envOrderPath.
  by apply Filepath.Join_clean.
Qed.

Lemma getEnvFilePath_ne_dir (e : Reader) (envName : string) :
  properDir e -> Filepath.has_sep envName = false ->
  getEnvFilePath e envName <> dir e.
Proof.
  intros Hp Hsep H. rewrite getEnvFilePath_proper in H by done.
  apply (f_equal String.length) in H. rewrite !Str.length_app in H.
  simpl in H. lia.
Qed.

(** X2: the ordering file is never a record.  Whatever the identifier, the
    record path ends in an element with the suffix and differs from the
    path of the ordering file, whose last element is [env-order]; and a
    directory entry of that name is not taken for a record file. *)
Theorem ordering_file_is_no_record (e : Reader) (envName : string)
    (fi : FileInfo) :
  getEnvFilePath e envName <> envOrderPath e /\
  Str.HasSuffix (Filepath.last_elem (getEnvFilePath e envName)) ".json" = true /\
  Filepath.last_elem (envOrderPath e) = envOrderFileName /\
  (Name fi = envOrderFileName -> isEnvFile fi = false).
Proof.
  split; [apply getEnvFilePath_ne_envOrderPath|].
  split; [rewrite getEnvFilePath_last; apply Str.HasSuffix_app|].
  split; [apply envOrderPath_last|].
  intros Hname. unfold isEnvFile. rewrite Hname.
  destruct (IsDir fi); reflexivity.
Qed.

(** X3: in a proper store directory the record of an identifier without
    separator is the file [<dir>/<identifier>.json], and the ordering file
    is [<dir>/env-order]. *)
Theorem store_layout (e : Reader) (envName : string)
    (Hdir : properDir e) (Hsep : Filepath.has_sep envName = false) :
  getEnvFilePath e envName = dir e +:+ "/" +:+ envName +:+ ".json" /\
  envOrderPath e = dir e +:+ "/env-order" /\
  getEnvFilePath e envName <> dir e.
Proof.
  split; [by apply getEnvFilePath_proper|].
  split; [by apply envOrderPath_proper|by apply getEnvFilePath_ne_dir].
Qed.

(** ** What an access touches *)

Lemma keeps_writeEnvOrder_ne (p : string) (e : Reader) (order : envOrder)
    (w : World) :
  p <> envOrderPath e -> keeps p w (snd (writeEnvOrder e order w)).
Proof.
  intros Hne. unfold writeEnvOrder. destruct (json_Marshal order).
  - apply keeps_WriteFile. congruence.
  - apply keeps_refl.
Qed.

Lemma keeps_envOrderBringToFront_ne (p : string) (e : Reader) (name : string)
    (w : World) :
  p <> envOrderPath e -> keeps p w (snd (envOrderBringToFront e name w)).
Proof.
  intros Hne. rewrite envOrderBringToFront_run. cbn zeta.
  assert (Hlog : keeps p w (log (EvSys (SysReadFile (envOrderPath e))) w))
    by by apply keeps_log.
  destruct (Fixed (loadedOrder e w)); [exact Hlog|].
  eapply keeps_trans; [exact Hlog|]. by apply keeps_writeEnvOrder_ne.
Qed.

Lemma keeps_saveAttempt_notin (p file : string) (e : Reader) (env1 : EnvT)
    (w : World) :
  p <> file -> ~ In p (dir e :: ancestors (dir e)) ->
  keeps p w (snd (saveAttempt e file env1 w)).
Proof.
  intros Hfile Hdir. rewrite saveAttempt_run.
  assert (Hm : keeps p w (snd (MkdirAll (dir e) w)))
    by by apply keeps_MkdirAll_notin.
  destruct (fst (MkdirAll (dir e) w)) as [err|].
  - eapply keeps_trans; [exact Hm|]. by apply keeps_log.
  - cbn zeta.
    assert (Hj : keeps p (snd (MkdirAll (dir e) w))
                   (snd (jcrypt_MarshalToFile file env1 (keySourceOf e)
                           (snd (MkdirAll (dir e) w))))).
    { apply keeps_jcrypt_MarshalToFile. congruence. }
    destruct (fst (jcrypt_MarshalToFile _ _ _ _)) as [err|].
    + eapply keeps_trans; [exact Hm|].
      eapply keeps_trans; [exact Hj|]. by apply keeps_log.
    + eapply keeps_trans; [exact Hm|exact Hj].
Qed.

(** A save attempt takes nothing away: a path other than the record path
    that holds something holds it afterwards. *)
Lemma saveAttempt_preserves (p file : string) (n : node) (e : Reader)
    (env1 : EnvT) (w : World) :
  p <> file -> fs w !! p = Some n ->
  fs (snd (saveAttempt e file env1 w)) !! p = Some n.
Proof.
  intros Hfile Hp. rewrite saveAttempt_run.
  pose proof (MkdirAll_preserves p (dir e) n w Hp) as Hm.
  destruct (fst (MkdirAll (dir e) w)) as [err|]; [by rewrite fs_log|].
  cbn zeta.
  assert (Hj : keeps p (snd (MkdirAll (dir e) w))
                 (snd (jcrypt_MarshalToFile file env1 (keySourceOf e)
                         (snd (MkdirAll (dir e) w))))).
  { apply keeps_jcrypt_MarshalToFile. congruence. }
  destruct Hj as (_ & Hj & _).
  destruct (fst (jcrypt_MarshalToFile _ _ _ _)) as [err|];
    rewrite ?fs_log; by rewrite Hj.
Qed.

(** X5: what an access can change.  An access changes at most the record
    file, the ordering file, and the store directory with the directories
    above it; a path other than the record and the ordering file that
    holds something keeps it, so that the directories are only created
    where nothing was.  A strict read, and any access to a record that
    exists, changes at most the ordering file; in particular it never
    rewrites the record it reads. *)
Theorem createOrReadEnvironment_frame (e : Reader) (envName : string)
    (env : EnvT) (h : option EnterEnvHandler) (w : World) (p : string) :
  let file := getEnvFilePath e envName in
  let w' := snd (createOrReadEnvironment e envName env h w) in
  (p <> envOrderPath e -> p <> file ->
   ~ In p (dir e :: ancestors (dir e)) ->
     fs w' !! p = fs w !! p) /\
  (p <> envOrderPath e -> p <> file ->
   forall n, fs w !! p = Some n -> fs w' !! p = Some n) /\
  (p <> envOrderPath e ->
     h = None \/ fst (isFile file w) = (true, None) ->
     fs w' !! p = fs w !! p) /\
  (h = None \/ fst (isFile file w) = (true, None) ->
     fs w' !! file = fs w !! file).
Proof.
  cbn zeta. set (file := getEnvFilePath e envName).
  assert (Hupdate : forall q w1, q <> envOrderPath e -> keeps q w w1 ->
            fs (snd (envOrderBringToFront e envName w1)) !! q = fs w !! q).
  { intros q w1 Hq Hw1.
    apply (keeps_trans q w w1 _ Hw1
             (keeps_envOrderBringToFront_ne q e envName w1 Hq)). }
  assert (Hne : file <> envOrderPath e)
    by apply getEnvFilePath_ne_envOrderPath.
  rewrite createOrReadEnvironment_run. cbn zeta. fold file.
  set (w0 := log (EvSys (SysStat file)) w).
  assert (Hread : forall q, q <> envOrderPath e ->
            fs (snd (let (r, w1) :=
                       jcrypt_UnmarshalFromFile file env (keySourceOf e) w0 in
                     match r with
                     | (env1, Some err) => (env1, Some err, w1)
                     | (env1, None) =>
                         (env1, None, snd (envOrderBringToFront e envName w1))
                     end)) !! q = fs w !! q).
  { intros q Hq.
    pose proof (keeps_jcrypt_UnmarshalFromFile q file env (keySourceOf e) w0)
      as Hr.
    destruct (jcrypt_UnmarshalFromFile _ _ _ _) as [[env1 [err|]] w1];
      cbn [snd] in *.
    - by destruct Hr as (_ & -> & _).
    - apply Hupdate; [done|].
      eapply keeps_trans; [|exact Hr]. by apply keeps_log. }
  destruct (fst (isFile file w)) as [[|] [err|]].
  - repeat split; intros; first [reflexivity|assumption].
  - split; [|split; [|split]].
    + intros Hp _ _. by apply Hread.
    + intros Hp _ n Hn. by rewrite Hread.
    + intros Hp _. by apply Hread.
    + intros _. by apply Hread.
  - repeat split; intros; first [reflexivity|assumption].
  - split; [|split; [|split]].
    + intros Hp Hfile Hdir.
      destruct h as [handler|]; [|reflexivity].
      destruct (handler envName env) as [env1 [err|]]; [reflexivity|].
      cbn [snd]. apply Hupdate; [done|].
      eapply keeps_trans; [|by apply keeps_saveAttempt_notin].
      eapply keeps_trans; by apply keeps_log.
    + intros Hp Hfile n Hn.
      destruct h as [handler|]; [|exact Hn].
      destruct (handler envName env) as [env1 [err|]]; [exact Hn|].
      cbn [snd].
      pose proof (keeps_envOrderBringToFront_ne p e envName
                    (snd (saveAttempt e file env1
                            (log (EvPrint notice (ArgStr envName)) w0))) Hp)
        as (_ & -> & _).
      apply saveAttempt_preserves; [done|]. by rewrite !fs_log.
    + intros Hp [->|Hmode]; [reflexivity|discriminate Hmode].
    + intros [->|Hmode]; [reflexivity|discriminate Hmode].
Qed.

(** X6: when the record file is there but cannot be decoded, the error of
    the decoder is returned as it is, with the target as the decoder left
    it; the files are unchanged and the ordering file is not even read. *)
Theorem createOrReadEnvironment_decode_error (e : Reader) (envName : string)
    (env env1 : EnvT) (h : option EnterEnvHandler) (w : World) (err : error)
    (Hfile : fst (isFile (getEnvFilePath e envName) w) = (true, None))
    (Hdecode :
       fst (jcrypt_UnmarshalFromFile (getEnvFilePath e envName) env
              (keySourceOf e)
              (log (EvSys (SysStat (getEnvFilePath e envName))) w))
       = (env1, Some err)) :
  let file := getEnvFilePath e envName in
  let r := createOrReadEnvironment e envName env h w in
  fst r = (env1, Some err) /\
  fs (snd r) = fs w /\
  trace (snd r) = trace w ++ [EvSys (SysStat file); EvSys (SysReadFile file)].
Proof.
  cbn zeta. rewrite createOrReadEnvironment_run. cbn zeta. rewrite Hfile.
  unfold jcrypt_UnmarshalFromFile, bind in Hdecode |- *.
  rewrite ReadFile_run in Hdecode |- *.
  match goal with
  | |- context [match ?r with inl _ => _ | inr _ => _ end] => destruct r
  end; unfold ret in *; cbn [fst snd] in *.
  - destruct (jcrypt_Unmarshal _ _ _) as [env2 oerr].
    injection Hdecode as -> ->. cbn [fst snd].
    repeat split. rewrite !trace_log. by rewrite <- app_assoc.
  - injection Hdecode as -> ->. cbn [fst snd].
    repeat split. rewrite !trace_log. by rewrite <- app_assoc.
Qed.

(** X7: when the existence check itself fails, with an error that does not
    say that the path is missing, reading, creating and deleting return that
    error and do nothing else: the handler is not called, the files are
    unchanged, and the only system call is the check. *)
Theorem stat_error_is_returned (e : Reader) (envName : string) (env : EnvT)
    (h : option EnterEnvHandler) (w : World) (err : error)
    (Hstat : fault w (SysStat (getEnvFilePath e envName)) = Some err)
    (Hother : IsNotExist err = false) :
  let file := getEnvFilePath e envName in
  createOrReadEnvironment e envName env h w
    = (env, Some err, log (EvSys (SysStat file)) w) /\
  DeleteEnvironment e envName w = (Some err, log (EvSys (SysStat file)) w).
Proof.
  cbn zeta. split.
  - rewrite createOrReadEnvironment_run. cbn zeta.
    rewrite isFile_run. cbn [fst]. by rewrite Hstat, Hother.
  - unfold DeleteEnvironment, bind. rewrite isFile_run.
    by rewrite Hstat, Hother.
Qed.

(** ** The system calls each operation may make *)

(** The events of a strict read: the existence check, the read of the
    record, and the read and the write of the ordering file. *)
Definition readEvent (e : Reader) (file : string) (ev : event) : Prop :=
  ev = EvSys (SysStat file) \/
  ev = EvSys (SysReadFile file) \/
  ev = EvSys (SysReadFile (envOrderPath e)) \/
  exists data, ev = EvSys (SysWriteFile (envOrderPath e) data).

(** The events of a capture, beyond those of a read: the notice, the
    creation of the store directory, the write of the record, and the
    warning. *)
Definition captureEvent (e : Reader) (envName file : string) (ev : event)
  : Prop :=
  ev = EvPrint notice (ArgStr envName) \/
  ev = EvSys (SysMkdirAll (dir e)) \/
  (exists data, ev = EvSys (SysWriteFile file data)) \/
  exists err, ev = EvPrint warning (ArgErrText err).

Lemma adds_envOrderBringToFront (P : event -> Prop) (e : Reader)
    (name : string) (w : World) :
  P (EvSys (SysReadFile (envOrderPath e))) ->
  (forall data, P (EvSys (SysWriteFile (envOrderPath e) data))) ->
  adds P w (snd (envOrderBringToFront e name w)).
Proof.
  intros Hr Hw. rewrite envOrderBringToFront_run. cbn zeta.
  destruct (Fixed (loadedOrder e w)); [by apply adds_log|].
  eapply adds_trans; [by apply adds_log|].
  unfold writeEnvOrder. destruct (json_Marshal _) as [data|err].
  - by apply adds_WriteFile.
  - apply adds_refl.
Qed.

Lemma adds_jcrypt_UnmarshalFromFile (P : event -> Prop) (file : string)
    (env : EnvT) (k : GetKeyHandler) (w : World) :
  P (EvSys (SysReadFile file)) ->
  adds P w (snd (jcrypt_UnmarshalFromFile file env k w)).
Proof.
  intros H. unfold jcrypt_UnmarshalFromFile, bind. rewrite ReadFile_run.
  match goal with
  | |- context [match ?r with inl _ => _ | inr _ => _ end] => destruct r
  end; by apply adds_log.
Qed.

Lemma adds_saveAttempt (P : event -> Prop) (e : Reader) (file : string)
    (env1 : EnvT) (w : World) :
  P (EvSys (SysMkdirAll (dir e))) ->
  (forall data, P (EvSys (SysWriteFile file data))) ->
  (forall err, P (EvPrint warning (ArgErrText err))) ->
  adds P w (snd (saveAttempt e file env1 w)).
Proof.
  intros Hm Hw Hp. rewrite saveAttempt_run.
  pose proof (adds_MkdirAll P (dir e) w Hm) as H1.
  destruct (fst (MkdirAll (dir e) w)) as [err|].
  - eapply adds_trans; [exact H1|]. by apply adds_log.
  - cbn zeta. eapply adds_trans; [exact H1|].
    set (w2 := snd (MkdirAll (dir e) w)).
    assert (H2 : adds P w2 (snd (jcrypt_MarshalToFile file env1 (keySourceOf e) w2))).
    { unfold jcrypt_MarshalToFile. destruct (jcrypt_Marshal _ _) as [data|err].
      - by apply adds_WriteFile.
      - apply adds_refl. }
    destruct (fst (jcrypt_MarshalToFile _ _ _ _)) as [err|]; [|exact H2].
    eapply adds_trans; [exact H2|]. by apply adds_log.
Qed.

(** X8: the system calls and console lines of each operation.  A strict
    read checks and reads the record and reads, and possibly writes, the
    ordering file, and does nothing else: it creates no directory, writes
    no record and prints nothing.  A create-or-read may in addition print
    the notice, create the store directory, write the record and print the
    warning.  A deletion checks and removes the record path.  A listing
    reads the directory and the ordering file and changes nothing. *)
Theorem operations_stay_in_their_files (e : Reader) (envName : string)
    (env : EnvT) (h : option EnterEnvHandler) (w : World) :
  let file := getEnvFilePath e envName in
  adds (readEvent e file) w (snd (ReadEnvironment e envName env w)) /\
  adds (fun ev => readEvent e file ev \/ captureEvent e envName file ev)
       w (snd (createOrReadEnvironment e envName env h w)) /\
  adds (fun ev => ev = EvSys (SysStat file) \/ ev = EvSys (SysRemove file))
       w (snd (DeleteEnvironment e envName w)) /\
  adds (fun ev => ev = EvSys (SysReadDir (dir e)) \/
                  ev = EvSys (SysReadFile (envOrderPath e)))
       w (snd (GetEnvironmentFiles e w)) /\
  snd (ListEnvironments e w) = snd (GetEnvironmentFiles e w).
Proof.
  cbn zeta. set (file := getEnvFilePath e envName).
  assert (Hread : forall (P : event -> Prop) (h' : option EnterEnvHandler),
            (forall ev, readEvent e file ev -> P ev) ->
            h' = None \/ fst (isFile file w) = (true, None) ->
            adds P w (snd (createOrReadEnvironment e envName env h' w))).
  { intros P h' HP Hmode. rewrite createOrReadEnvironment_run. cbn zeta.
    fold file.
    assert (H0 : adds P w (log (EvSys (SysStat file)) w)).
    { apply adds_log, HP. by left. }
    destruct (fst (isFile file w)) as [[|] [err|]]; cbn [snd]; try exact H0.
    - pose proof (adds_jcrypt_UnmarshalFromFile P file env (keySourceOf e)
                    (log (EvSys (SysStat file)) w)) as H1.
      destruct (jcrypt_UnmarshalFromFile _ _ _ _) as [[env1 [err|]] w1];
        cbn [snd] in *.
      + eapply adds_trans; [exact H0|]. apply H1, HP. right. by left.
      + eapply adds_trans; [exact H0|].
        eapply adds_trans; [apply H1, HP; right; by left|].
        apply adds_envOrderBringToFront.
        * apply HP. right. right. by left.
        * intros data. apply HP. right. right. right. by exists data.
    - destruct Hmode as [->|Hmode]; [exact H0|discriminate Hmode]. }
  split; [|split; [|split; [|split]]].
  - unfold ReadEnvironment. apply Hread; [done|by left].
  - destruct (fst (isFile file w)) as [[|] [err|]] eqn:Hfile.
    2: { apply Hread; [intros ev Hev; by left|by right]. }
    all: rewrite createOrReadEnvironment_run; cbn zeta; fold file;
      rewrite Hfile.
    1-2: cbn [snd]; apply adds_log; left; by left.
    + assert (H0 : adds (fun ev => readEvent e file ev \/
                                   captureEvent e envName file ev)
                     w (log (EvSys (SysStat file)) w)).
      { apply adds_log. left. by left. }
      destruct h as [handler|]; [|exact H0].
      assert (H1 : adds (fun ev => readEvent e file ev \/
                                   captureEvent e envName file ev)
                     w (log (EvPrint notice (ArgStr envName))
                          (log (EvSys (SysStat file)) w))).
      { eapply adds_trans; [exact H0|]. apply adds_log. right. by left. }
      destruct (handler envName env) as [env1 [err|]]; cbn [snd]; [exact H1|].
      eapply adds_trans; [exact H1|].
      eapply adds_trans.
      * apply adds_saveAttempt.
        -- right. right. by left.
        -- intros data. right. right. right. left. by exists data.
        -- intros err. right. right. right. right. by exists err.
      * apply adds_envOrderBringToFront.
        -- left. right. right. by left.
        -- intros data. left. right. right. right. by exists data.
  - unfold DeleteEnvironment, bind. fold file. rewrite isFile_run.
    set (P := fun ev => ev = EvSys (SysStat file) \/ ev = EvSys (SysRemove file)).
    assert (H0 : adds P w (log (EvSys (SysStat file)) w))
      by (apply adds_log; by left).
    match goal with
    | |- context [let (_, _) := ?r in _] => destruct r as [[|] [err|]]
    end; cbn [negb snd]; try exact H0.
    eapply adds_trans; [exact H0|]. apply adds_Remove. by right.
  - unfold GetEnvironmentFiles, bind.
    pose proof (ReadDir_world (dir e) w) as Hw.
    destruct (ReadDir (dir e) w) as [[files|err] w1]; cbn [snd] in *; subst w1.
    + rewrite readEnvOrder_run. cbn [snd ret].
      eapply adds_trans; apply adds_log; [by left|by right].
    + destruct (IsNotExist err); cbn [snd ret]; apply adds_log; by left.
  - unfold ListEnvironments, bind.
    destruct (GetEnvironmentFiles e w) as [[[|fi files]|err] w1]; reflexivity.
Qed.

(** ** What a listing contains *)

(** A record file is an entry that is not a directory and whose name ends
    in the suffix; the name of the ordering file does not end in it. *)
Lemma isEnvFile_iff (fi : FileInfo) :
  isEnvFile fi = true <->
  IsDir fi = false /\ Str.HasSuffix (Name fi) ".json" = true.
Proof.
  unfold isEnvFile. split.
  - intros [[Hd Hs]%andb_prop _]%andb_prop. by apply negb_true_iff in Hd.
  - intros [Hd Hs]. rewrite Hd, Hs. simpl.
    destruct (String.eqb_spec (Name fi) envOrderFileName) as [E|]; [|done].
    rewrite E in Hs. discriminate Hs.
Qed.

Lemma suffixed_stem (name : string) :
  Str.HasSuffix name ".json" = true ->
  name = substring 0 (String.length name - 5) name +:+ ".json" /\
  5 <= String.length name.
Proof.
  intros [p ->]%Str.HasSuffix_inv. split.
  - f_equal. symmetry. apply (Str.substring_app_l p ".json").
  - rewrite Str.length_app. simpl. lia.
Qed.

Lemma GetEnvironmentFiles_In (e : Reader) (w : World) (files : list FileInfo)
    (fi : FileInfo) :
  fst (GetEnvironmentFiles e w) = inl files -> In fi files ->
  fs w !! dir e = Some Dir /\
  In fi (children (dir e) (fs w)) /\ isEnvFile fi = true.
Proof.
  rewrite GetEnvironmentFiles_run.
  destruct (fst (ReadDir (dir e) w)) as [entries|err] eqn:Hdir.
  - intros [= <-] Hin.
    apply (Permutation_in _ (sortEnvFiles_perm _ _)) in Hin.
    apply List.filter_In in Hin as [Hin Henv].
    pose proof Hdir as Hrun. rewrite ReadDir_run in Hrun.
    destruct (fault w _) as [err|]; [discriminate|].
    destruct (fs w !! dir e) as [[]|]; try discriminate.
    split; [done|]. split; [|done]. by apply (ReadDir_In _ _ _ fi Hdir).
  - destruct (IsNotExist err); [|discriminate]. by intros [= <-] [].
Qed.


(** ** Titles *)

(** X10: the titles are those of the listed files, in the order of the
    listing, and an error of the listing is returned as it is; the files
    are not changed.  The title of a file is computed from its name
    without the suffix: without a title handler it is that stem, so that
    title and suffix give the file name back; with a handler it is what the
    handler returns for the stem and the path of the file. *)
Theorem ListEnvironments_titles (e : Reader) (w : World) :
  fs (snd (ListEnvironments e w)) = fs w /\
  match fst (GetEnvironmentFiles e w) with
  | inr err => fst (ListEnvironments e w) = inr err
  | inl files =>
      exists titles,
        fst (ListEnvironments e w) = inl titles /\
        Forall2
          (fun title fi =>
             exists stem,
               Name fi = stem +:+ ".json" /\
               title = match Reader_GetEnvFileTitle e with
                       | Some handler =>
                           handler stem (Filepath.Join (dir e) (Name fi))
                       | None => stem
                       end)
          titles files
  end.
Proof.
  split.
  - pose proof (GetEnvironmentFiles_world e w) as [Hfs _].
    unfold ListEnvironments, bind.
    by destruct (GetEnvironmentFiles e w) as [[[|fi files]|err] w1].
  - destruct (fst (GetEnvironmentFiles e w)) as [files|err] eqn:Hlist.
    + exists (map (envTitle e) files). split.
      * unfold ListEnvironments, bind.
        destruct (GetEnvironmentFiles e w) as [[[|fi l]|err] w1];
          cbn [fst] in Hlist; try discriminate; by injection Hlist as <-.
      * assert (Hall : Forall (fun fi => isEnvFile fi = true) files).
        { apply List.Forall_forall. intros fi Hin.
          by destruct (GetEnvironmentFiles_In e w files fi Hlist Hin)
            as (_ & _ & H). }
        clear Hlist. induction Hall as [|fi files Hfi _ IH]; simpl;
          constructor; [|exact IH].
        apply isEnvFile_iff in Hfi as [_ Hs].
        destruct (suffixed_stem _ Hs) as [Hname _].
        exists (substring 0 (String.length (Name fi) - 5) (Name fi)).
        split; [exact Hname|]. unfold envTitle. by rewrite Hs.
    + unfold ListEnvironments, bind.
      destruct (GetEnvironmentFiles e w) as [[l|err'] w1];
        cbn [fst] in Hlist; [discriminate|]. by injection Hlist as <-.
Qed.

(** ** From the listing to the records *)

Lemma createOrReadEnvironment_found (e : Reader) (envName data : string)
    (env : EnvT) (h : option EnterEnvHandler) (w : World) :
  fs w !! getEnvFilePath e envName = Some (File data) ->
  fault w (SysStat (getEnvFilePath e envName)) = None ->
  fault w (SysReadFile (getEnvFilePath e envName)) = None ->
  fst (createOrReadEnvironment e envName env h w) =
  jcrypt_Unmarshal data env (keySourceOf e).
Proof.
  intros Hfile Hstat Hread. rewrite createOrReadEnvironment_run. cbn zeta.
  rewrite (isFile_present _ data) by done.
  unfold jcrypt_UnmarshalFromFile, bind. rewrite ReadFile_run.
  rewrite fault_log, fs_log, Hread, Hfile. unfold ret.
  by destruct (jcrypt_Unmarshal data env (keySourceOf e)) as [env1 [err|]].
Qed.



(** ** Selecting from the listing *)

(** X12: the selection.  An error of the listing and an error of the prompt
    are returned as they are, and an empty listing gives the error
    [no environments specified]; in these cases the target is untouched
    and nothing is read beyond the listing.  The prompt is given the titles
    of the listed files, in the order of the listing.  For an index within
    the listing the selection does not panic: the chosen file is named
    [<stem>.json], and the result is that of a strict read of the stem. *)
Theorem SelectEnvironment_spec (e : Reader) (env : EnvT) (w : World) :
  let listed := GetEnvironmentFiles e w in
  let r := SelectEnvironment e env w in
  match fst listed with
  | inr err => r = (Some (env, Some err), snd listed)
  | inl [] =>
      r = (Some (env, Some (Errorf "no environments specified" "")),
           snd listed)
  | inl files =>
      match promptui_Run "Select environment" (map (envTitle e) files) with
      | (_, Some err) => r = (Some (env, Some err), snd listed)
      | (index, None) =>
          index < length files ->
          exists fi stem,
            nth_error files index = Some fi /\
            Name fi = stem +:+ ".json" /\
            fst r = Some (fst (ReadEnvironment e stem env (snd listed))) /\
            snd r = snd (ReadEnvironment e stem env (snd listed))
      end
  end.
Proof.
  cbn zeta. unfold SelectEnvironment, bind.
  pose proof (GetEnvironmentFiles_In e w) as Hin.
  destruct (GetEnvironmentFiles e w) as [[files|err] w1]; cbn [fst snd] in *;
    [|reflexivity].
  destruct files as [|f0 files]; [reflexivity|].
  set (all := f0 :: files) in *.
  destruct (promptui_Run _ _) as [index [err|]]; [reflexivity|].
  intros Hlt. apply nth_error_Some in Hlt.
  destruct (nth_error all index) as [fi|] eqn:Hnth; [|done].
  destruct (Hin all fi eq_refl (nth_error_In _ _ Hnth)) as (_ & _ & Henv).
  apply isEnvFile_iff in Henv as [_ Hs].
  destruct (suffixed_stem _ Hs) as [Hname Hlen].
  exists fi, (substring 0 (String.length (Name fi) - 5) (Name fi)).
  split; [reflexivity|]. split; [exact Hname|].
  apply Nat.ltb_ge in Hlen. rewrite Hlen. unfold ReadEnvironment, ret.
  by destruct (createOrReadEnvironment _ _ _ _ _).
Qed.

(** ** After a deletion *)




(** ** Round trips *)

(** The directory chain of a store: the store directory and the
    directories above it. *)
Definition dirChain (e : Reader) : list string := dir e :: ancestors (dir e).

(** In a proper store directory the record of an identifier without
    separator and the ordering file lie directly in the directory, and are
    not among the directories on the way to it. *)
Lemma ancestors_getEnvFilePath (e : Reader) (envName : string) :
  properDir e -> Filepath.has_sep envName = false ->
  ancestors (getEnvFilePath e envName) = dirChain e.
Proof.
  intros Hproper Hsep. rewrite getEnvFilePath_proper by done.
  destruct Hproper as (Hclean & Hdot & _).
  apply ancestors_entry.
  - intros Hd. apply Hdot. rewrite <- Hclean, Hd. reflexivity.
  - by destruct envName.
  - by rewrite Filepath.has_sep_app, Hsep.
Qed.


Lemma dirChain_shorter (e : Reader) (a : string) :
  In a (dirChain e) -> String.length a <= String.length (dir e).
Proof.
  intros [<-|Hin]; [done|]. apply ancestors_shorter in Hin. lia.
Qed.

Lemma getEnvFilePath_notin_dirChain (e : Reader) (envName : string) :
  properDir e -> Filepath.has_sep envName = false ->
  ~ In (getEnvFilePath e envName) (dirChain e).
Proof.
  intros Hproper Hsep Hin. apply dirChain_shorter in Hin.
  rewrite getEnvFilePath_proper in Hin by done.
  rewrite !Str.length_app in Hin. simpl in Hin. lia.
Qed.

Lemma envOrderPath_notin_dirChain (e : Reader) :
  properDir e -> ~ In (envOrderPath e) (dirChain e).
Proof.
  intros Hproper Hin. apply dirChain_shorter in Hin.
  rewrite envOrderPath_proper in Hin by done.
  rewrite !Str.length_app in Hin. simpl in Hin. lia.
Qed.

(** A save attempt that meets no obstacle leaves the record file and the
    store directory in place and changes no path but the record and the
    directories on the way. *)
Lemma saveAttempt_ok (e : Reader) (envName data : string) (env1 : EnvT)
    (w : World) :
  let file := getEnvFilePath e envName in
  (forall c, fault w c = None) ->
  properDir e -> Filepath.has_sep envName = false ->
  (forall a d, In a (dirChain e) -> fs w !! a <> Some (File d)) ->
  fs w !! file <> Some Dir ->
  jcrypt_Marshal env1 (keySourceOf e) = inl data ->
  let w1 := snd (saveAttempt e file env1 w) in
  fault w1 = fault w /\
  fs w1 !! file = Some (File data) /\
  fs w1 !! dir e = Some Dir /\
  forall p, p <> file -> ~ In p (dirChain e) -> fs w1 !! p = fs w !! p.
Proof.
  intros file Hfault Hproper Hsep Hdir Hfile Henc. cbn zeta.
  assert (Hnotin : ~ In file (dirChain e))
    by by apply getEnvFilePath_notin_dirChain.
  rewrite saveAttempt_run, MkdirAll_run. cbn zeta. rewrite Hfault.
  set (w0 := log (EvSys (SysMkdirAll (dir e))) w).
  destruct (mkdir_chain_ok (dirChain e) (fs w)) as [m1 Hm1].
  { intros a Ha. split; [|intros d; by apply Hdir].
    destruct Ha as [<-|Ha]; [|by apply (ancestors_nonempty (dir e))].
    destruct Hproper as (Hclean & Hdot & _).
    intros Hd. apply Hdot. rewrite <- Hclean, Hd. reflexivity. }
  unfold dirChain in Hm1. rewrite Hm1. cbn [fst snd].
  pose proof (mkdir_chain_head _ _ _ _ Hm1) as Hhead.
  pose proof (mkdir_chain_spec _ _ _ Hm1) as Hspec.
  set (w2 := set_fs m1 w0).
  assert (Hfile2 : fs w2 !! file = fs w !! file).
  { destruct (Hspec file) as [Heq|(_ & _ & Hin)]; [exact Heq|].
    by destruct Hnotin. }
  unfold jcrypt_MarshalToFile. rewrite Henc, WriteFile_run. cbn zeta.
  change (fault w2 (SysWriteFile file data)) with
    (fault w (SysWriteFile file data)). rewrite Hfault.
  assert (Hparent : parent_error (fs w2) file = None).
  { unfold parent_error, file. rewrite ancestors_getEnvFilePath by done.
    unfold dirChain. change (fs w2) with m1. by rewrite Hhead. }
  rewrite Hparent.
  assert (Hnd : fs w2 !! file <> Some Dir) by by rewrite Hfile2.
  destruct (fs w2 !! file) as [[x|]|]; try done; cbn [fst snd].
  all: split; [done|].
  all: change (fs (set_fs ?m _)) with m; change (fs w2) with m1.
  all: split; [apply lookup_insert_eq|].
  all: split;
    [rewrite lookup_insert_ne; [exact Hhead|];
     intros Heq; apply Hnotin; rewrite Heq; by left|].
  all: intros p Hp1 Hp2; rewrite lookup_insert_ne by done;
    destruct (Hspec p) as [Heq|(_ & _ & Hin)]; [exact Heq|by destruct Hp2].
Qed.

(** X14: what is captured can be read back.  In a proper store directory,
    for an identifier without separator: when no system call is made to
    fail, the record path holds nothing, no file is in the place of the
    store directory or of a directory above it, the handler succeeds and
    the record encodes to [data], then after the create-or-read the record
    file holds [data] and the store directory exists; a later access to
    the same identifier, strict or not, does not call the handler again
    and returns what the decoder makes of [data]. *)
Theorem capture_then_read (e : Reader) (envName : string)
    (env env1 : EnvT) (handler : EnterEnvHandler) (w : World) (data : string)
    (Hproper : properDir e)
    (Hsep : Filepath.has_sep envName = false)
    (Hfault : forall c, fault w c = None)
    (Habsent : fs w !! getEnvFilePath e envName = None)
    (Hdir : forall a d, In a (dir e :: ancestors (dir e)) ->
                        fs w !! a <> Some (File d))
    (Hhandler : handler envName env = (env1, None))
    (Hencode : jcrypt_Marshal env1 (keySourceOf e) = inl data) :
  let file := getEnvFilePath e envName in
  let r := createOrReadEnvironment e envName env (Some handler) w in
  fst r = (env1, None) /\
  fs (snd r) !! file = Some (File data) /\
  fs (snd r) !! dir e = Some Dir /\
  (forall env0 h,
     fst (createOrReadEnvironment e envName env0 h (snd r)) =
     jcrypt_Unmarshal data env0 (keySourceOf e)).
Proof.
  cbn zeta. set (file := getEnvFilePath e envName) in *.
  rewrite createOrReadEnvironment_run. cbn zeta. fold file.
  rewrite (isFile_absent file w Habsent (Hfault _)), Hhandler.
  cbn [fst snd].
  set (w1 := log (EvPrint notice (ArgStr envName)) _).
  destruct (saveAttempt_ok e envName data env1 w1)
    as (Hf2 & Hfile2 & Hdir2 & _); try done.
  { unfold w1. rewrite !fs_log. fold file. by rewrite Habsent. }
  fold file in Hf2, Hfile2, Hdir2.
  set (w2 := snd (saveAttempt e file env1 w1)) in *.
  pose proof (keeps_envOrderBringToFront_ne file e envName w2
                (getEnvFilePath_ne_envOrderPath e envName)) as (Hf3 & Hfile3 & _).
  assert (Hod : dir e <> envOrderPath e).
  { intros Heq. apply (envOrderPath_notin_dirChain e Hproper).
    rewrite <- Heq. by left. }
  pose proof (keeps_envOrderBringToFront_ne (dir e) e envName w2 Hod)
    as (_ & Hdir3 & _).
  set (w3 := snd (envOrderBringToFront e envName w2)) in *.
  split; [reflexivity|].
  assert (Hfile' : fs w3 !! file = Some (File data)) by by rewrite Hfile3.
  split; [exact Hfile'|]. split; [by rewrite Hdir3|].
  intros env0 h. apply createOrReadEnvironment_found; [done| |].
  - rewrite Hf3, Hf2. apply Hfault.
  - rewrite Hf3, Hf2. apply Hfault.
Qed.

(** ** Most recently used first *)



(** ** A new reader *)

(** X16: when the current user cannot be determined, [NewReader] returns
    that error and no reader.  Otherwise the reader has the directory
    [Join(home, homeDirName)] and no key source and no handlers, so that
    its create-or-read is a strict read until a handler is set.  When the
    last element of [homeDirName] is a plain name, the directory is a
    proper store directory: a clean path, ending in that name, that is
    neither [.] nor [/]. *)
Theorem NewReader_spec (homeDirName : string) :
  match user_Current with
  | inr err => NewReader homeDirName = (None, Some err)
  | inl usr =>
      exists e,
        NewReader homeDirName = (Some e, None) /\
        dir e = Filepath.Join (HomeDir usr) homeDirName /\
        KeySource e = None /\
        Reader_EnterEnvHandler e = None /\
        Reader_GetEnvFileTitle e = None /\
        (forall envName env w,
           CreateOrReadEnvironment e envName env w =
           ReadEnvironment e envName env w) /\
        (Filepath.plain (Filepath.last_elem homeDirName) ->
         properDir e /\
         Filepath.last_elem (dir e) = Filepath.last_elem homeDirName)
  end.
Proof using Type*.
  unfold NewReader, getConfigDir. destruct user_Current as [usr|err];
    [|reflexivity].
  exists (mkReader (Filepath.Join (HomeDir usr) homeDirName) None None None).
  do 6 (split; [reflexivity|]).
  intros Hplain. unfold properDir. cbn [dir].
  pose proof (Filepath.last_elem_Join (HomeDir usr) homeDirName Hplain)
    as Hlast.
  destruct Hplain as (Hne & Hdot & _).
  split; [|exact Hlast]. split; [|split].
  - apply Filepath.Join_is_clean. intros Hempty.
    rewrite Hempty in Hlast. by apply Hne.
  - intros Heq. rewrite Heq in Hlast. by apply Hdot.
  - intros Heq. rewrite Heq in Hlast. by apply Hne.
Qed.

(** ** A directory in the place of a record *)

(** X17: a directory at the record path is not a record.  When the
    existence check finds a directory there, a strict read reports
    [not found] and a deletion reports [does not exist], and neither
    changes a file.  A create-or-read calls the handler and, when the
    handler succeeds, reports success although the record cannot be saved:
    the path still holds the directory and a warning has been printed. *)
Theorem directory_is_not_a_record (e : Reader) (envName : string)
    (env : EnvT) (w : World)
    (Hdir : fs w !! getEnvFilePath e envName = Some Dir)
    (Hstat : fault w (SysStat (getEnvFilePath e envName)) = None) :
  let file := getEnvFilePath e envName in
  fst (isFile file w) = (false, None) /\
  fst (ReadEnvironment e envName env w) =
    (env, Some (Errorf "environment %q not found" envName)) /\
  fs (snd (ReadEnvironment e envName env w)) = fs w /\
  fst (DeleteEnvironment e envName w) =
    Some (Errorf "environment %q does not exist" envName) /\
  fs (snd (DeleteEnvironment e envName w)) = fs w /\
  (forall handler env1,
     handler envName env = (env1, None) ->
     let r := createOrReadEnvironment e envName env (Some handler) w in
     fst r = (env1, None) /\
     fs (snd r) !! file = Some Dir /\
     exists err, In (EvPrint warning (ArgErrText err)) (trace (snd r))).
Proof.
  cbn zeta. set (file := getEnvFilePath e envName) in *.
  assert (Hfile : fst (isFile file w) = (false, None)).
  { rewrite isFile_run. cbn [fst]. by rewrite Hstat, Hdir. }
  split; [exact Hfile|].
  unfold ReadEnvironment. rewrite !createOrReadEnvironment_run. cbn zeta.
  fold file. rewrite Hfile. do 2 (split; [reflexivity|]).
  assert (Hdel : DeleteEnvironment e envName w =
                 (Some (Errorf "environment %q does not exist" envName),
                  log (EvSys (SysStat file)) w)).
  { unfold DeleteEnvironment, bind. fold file. rewrite isFile_run.
    by rewrite Hstat, Hdir. }
  rewrite Hdel. do 2 (split; [reflexivity|]).
  intros handler env1 Hh. rewrite createOrReadEnvironment_run. cbn zeta.
  fold file. rewrite Hfile, Hh. cbn [fst snd]. split; [reflexivity|].
  set (w1 := log (EvPrint notice (ArgStr envName)) _).
  set (w2 := snd (saveAttempt e file env1 w1)).
  assert (Hkeep : fs (snd (envOrderBringToFront e envName w2)) !! file
                  = fs w2 !! file).
  { apply keeps_envOrderBringToFront_ne, getEnvFilePath_ne_envOrderPath. }
  assert (Hlater : later w2 (snd (envOrderBringToFront e envName w2))).
  { eapply later_trans; [apply later_log|apply later_envOrderBringToFront]. }
  assert (Hsave : fs w2 !! file = Some Dir /\
                  exists err, In (EvPrint warning (ArgErrText err)) (trace w2)).
  { unfold w2. rewrite saveAttempt_run.
    assert (H1 : fs w1 !! file = Some Dir) by (unfold w1; by rewrite !fs_log).
    pose proof (MkdirAll_preserves file (dir e) Dir w1 H1) as Hm.
    destruct (fst (MkdirAll (dir e) w1)) as [err|].
    { split; [by rewrite fs_log|]. exists err. apply In_trace_log. }
    cbn zeta. set (wm := snd (MkdirAll (dir e) w1)) in *.
    unfold jcrypt_MarshalToFile.
    destruct (jcrypt_Marshal env1 (keySourceOf e)) as [data|err].
    - rewrite WriteFile_run. cbn zeta.
      destruct (fault wm _) as [err|]; cbn [fst snd].
      + split; [by rewrite !fs_log|]. exists err. apply In_trace_log.
      + destruct (parent_error (fs wm) file) as [err|]; cbn [fst snd].
        * split; [by rewrite !fs_log|]. exists err. apply In_trace_log.
        * rewrite Hm. cbn [fst snd]. split; [by rewrite !fs_log|].
          eexists. apply In_trace_log.
    - unfold ret. cbn [fst snd]. split; [by rewrite fs_log|].
      exists err. apply In_trace_log. }
  destruct Hsave as [Hs (err & Hin)]. split; [by rewrite Hkeep|].
  exists err. by apply (later_In _ _ _ Hlater).
Qed.

(** ** A pinned store is read-only for reads *)

(** X18: while the ordering is pinned, a strict read, and any access to a
    record that exists, changes no file at all: the store is the same
    after it, no directory is created and nothing is written or removed,
    and the listing is the one from before. *)
Theorem pinned_reads_change_nothing (e : Reader) (envName : string)
    (env : EnvT) (h : option EnterEnvHandler) (w : World)
    (Hfixed : Fixed (loadedOrder e w) = true)
    (Hmode : h = None \/
             fst (isFile (getEnvFilePath e envName) w) = (true, None)) :
  let r := createOrReadEnvironment e envName env h w in
  fs (snd r) = fs w /\
  adds (fun ev => mutation ev = false) w (snd r) /\
  fst (GetEnvironmentFiles e (snd r)) = fst (GetEnvironmentFiles e w).
Proof.
  cbn zeta. set (file := getEnvFilePath e envName) in *.
  assert (H : fs (snd (createOrReadEnvironment e envName env h w)) = fs w /\
              adds (fun ev => mutation ev = false) w
                (snd (createOrReadEnvironment e envName env h w))).
  { rewrite createOrReadEnvironment_run. cbn zeta. fold file.
    set (w0 := log (EvSys (SysStat file)) w).
    assert (H0 : adds (fun ev => mutation ev = false) w w0)
      by by apply adds_log.
    destruct (fst (isFile file w)) as [[|] [err|]]; cbn [snd];
      try (split; [reflexivity|exact H0]).
    - unfold jcrypt_UnmarshalFromFile, bind. rewrite ReadFile_run.
      set (w1 := log (EvSys (SysReadFile file)) w0).
      assert (H1 : adds (fun ev => mutation ev = false) w w1).
      { eapply adds_trans; [exact H0|]. by apply adds_log. }
      assert (Hdone : forall r : EnvT * option error,
                fs (snd (let (env1, o) := r in
                         match o with
                         | Some err => (env1, Some err, w1)
                         | None =>
                             (env1, None,
                              snd (envOrderBringToFront e envName w1))
                         end)) = fs w /\
                adds (fun ev => mutation ev = false) w
                  (snd (let (env1, o) := r in
                        match o with
                        | Some err => (env1, Some err, w1)
                        | None =>
                            (env1, None,
                             snd (envOrderBringToFront e envName w1))
                        end))).
      { intros [env1 [err|]]; cbn [snd]; [by split|].
        rewrite envOrderBringToFront_fixed.
        - cbn [snd]. split; [reflexivity|].
          eapply adds_trans; [exact H1|]. by apply adds_log.
        - rewrite <- Hfixed. rewrite !loadedOrder_unfold. reflexivity. }
      match goal with
      | |- context [match ?r with inl _ => _ | inr _ => _ end] =>
          destruct r as [data|rerr]
      end; unfold ret.
      + exact (Hdone (jcrypt_Unmarshal data env (keySourceOf e))).
      + exact (Hdone (env, Some rerr)).
    - destruct Hmode as [->|Hmode]; [|discriminate Hmode].
      split; [reflexivity|exact H0]. }
  destruct H as [Hfs Hadds]. split; [exact Hfs|]. split; [exact Hadds|].
  rewrite !GetEnvironmentFiles_run.
  destruct Hadds as [Hfault _].
  rewrite (ReadDir_frame _ _ _ Hfs Hfault).
  rewrite !loadedOrder_unfold. by rewrite Hfs, Hfault.
Qed.

(** X1: identifiers without separator have files of their own.  Two such
    identifiers that differ are mapped to different record paths, in any
    store directory; the file is named [<identifier>.json]; and for an
    identifier that does not itself end in the suffix, the entry the
    bring-to-front update writes into the order list is that file name,
    the name under which a listing looks the file up. *)
Theorem plain_identifiers_have_own_files (e : Reader) (n1 n2 : string)
    (H1 : Filepath.has_sep n1 = false)
    (H2 : Filepath.has_sep n2 = false)
    (Hne : n1 <> n2) :
  getEnvFilePath e n1 <> getEnvFilePath e n2 /\
  Filepath.last_elem (getEnvFilePath e n1) = n1 +:+ ".json" /\
  (Str.HasSuffix n1 ".json" = false ->
   forall order,
     hd_error (entries (bringToFront (normalize n1) order))
     = Some (Filepath.last_elem (getEnvFilePath e n1))).
Proof.
  split; [|split].
  - intros Heq. apply Hne. by apply (getEnvFilePath_inj_no_sep e).
  - rewrite getEnvFilePath_last. by rewrite Filepath.last_elem_no_sep.
  - intros Hbare order. rewrite bringToFront_unfold.
    change (Some (normalize n1)
            = Some (Filepath.last_elem (getEnvFilePath e n1))).
    f_equal. by apply normalize_is_file_name.
Qed.

End Store.

Arguments mkReader {EnvT} _ _ _ _.
Arguments dir {EnvT} _.
Arguments KeySource {EnvT} _.
Arguments Reader_EnterEnvHandler {EnvT} _.
Arguments Reader_GetEnvFileTitle {EnvT} _.
Arguments mkAccess {EnvT} _ _ _.
Arguments getEnvFilePath {EnvT} _ _.
Arguments envOrderPath {EnvT} _.

End Env.

(* ===================================================================== *)
(** * A concrete store *)
(* ===================================================================== *)

(** An instance of the collaborators, used to run the model: records are
    strings, the record codec prefixes the key, and the ordering file is
    JSON with no escapes in its strings. *)

Module Demo.
Import OS Env.

Definition dq : string := String (ascii_of_nat 34) EmptyString.

Fixpoint strip_prefix (pre s : string) : option string :=
  match pre, s with
  | EmptyString, _ => Some s
  | String a pre', String b s' =>
      if Ascii.eqb a b then strip_prefix pre' s' else None
  | String _ _, EmptyString => None
  end.

Definition json_bool (b : bool) : string := if b then "true" else "false".

Definition json_string (s : string) : string := dq +:+ s +:+ dq.

Fixpoint json_items (items : list string) : string :=
  match items with
  | [] => ""
  | [x] => json_string x
  | x :: rest => json_string x +:+ "," +:+ json_items rest
  end.

Definition json_list (l : option (list string)) : string :=
  match l with
  | None => "null"
  | Some items => "[" +:+ json_items items +:+ "]"
  end.

Definition json_Marshal (order : envOrder) : string + error :=
  inl ("{" +:+ json_string "fixed" +:+ ":" +:+ json_bool (Fixed order) +:+
       "," +:+ json_string "order" +:+ ":" +:+ json_list (Order order) +:+ "}").

Inductive pstate : Type :=
| AtItem
| InString (acc : string)
| AfterItem.

Fixpoint parse_items (st : pstate) (items : list string) (s : string)
  : option (list string * string) :=
  match s with
  | EmptyString => None
  | String c rest =>
      match st with
      | AtItem =>
          if Ascii.eqb c (ascii_of_nat 34) then parse_items (InString "") items rest
          else None
      | InString acc =>
          if Ascii.eqb c (ascii_of_nat 34)
          then parse_items AfterItem (items ++ [acc]) rest
          else parse_items (InString (acc +:+ String c EmptyString)) items rest
      | AfterItem =>
          if Ascii.eqb c ","%char then parse_items AtItem items rest
          else if Ascii.eqb c "]"%char then Some (items, rest)
          else None
      end
  end.

Definition parse_list (s : string) : option (option (list string) * string) :=
  match strip_prefix "null" s with
  | Some rest => Some (None, rest)
  | None =>
      match strip_prefix "[]" s with
      | Some rest => Some (Some [], rest)
      | None =>
          match strip_prefix "[" s with
          | Some rest =>
              match parse_items AtItem [] rest with
              | Some (items, rest') => Some (Some items, rest')
              | None => None
              end
          | None => None
          end
      end
  end.

Definition parse_bool (s : string) : option (bool * string) :=
  match strip_prefix "true" s with
  | Some rest => Some (true, rest)
  | None =>
      match strip_prefix "false" s with
      | Some rest => Some (false, rest)
      | None => None
      end
  end.

Definition json_Unmarshal (data : string) : envOrder + error :=
  let invalid := inr (ErrCollab "invalid ordering file") in
  match strip_prefix ("{" +:+ json_string "fixed" +:+ ":") data with
  | None => invalid
  | Some s1 =>
      match parse_bool s1 with
      | None => invalid
      | Some (fixed, s2) =>
          match strip_prefix ("," +:+ json_string "order" +:+ ":") s2 with
          | None => invalid
          | Some s3 =>
              match parse_list s3 with
              | Some (order, "}") => inl (mkEnvOrder fixed order)
              | _ => invalid
              end
          end
      end
  end.

(** Records are strings; the stored form is the key, a colon, the record. *)
Definition jcrypt_Marshal (env : string) (keySource : GetKeyHandler)
  : string + error :=
  match keySource tt with
  | inr err => inr err
  | inl key => inl (key +:+ ":" +:+ env)
  end.

Definition jcrypt_Unmarshal (data env : string) (keySource : GetKeyHandler)
  : string * option error :=
  match keySource tt with
  | inr err => (env, Some err)
  | inl key =>
      match strip_prefix (key +:+ ":") data with
      | Some v => (v, None)
      | None => (env, Some (ErrCollab "wrong key"))
      end
  end.

(** A capture handler that fills the record in. *)
Definition fill (envName env : string) : string * option error :=
  ("url-of-" +:+ envName, None).

(** A capture handler that gives up. *)
Definition cancel (envName env : string) : string * option error :=
  (env, Some (ErrCollab "interrupted")).

Definition home : string := "/home/u/.rri".

Definition reader : Reader string := mkReader home None (Some fill) None.

Definition no_fault (c : syscall) : option error := None.

Definition world (files : list (string * node)) (fault : syscall -> option error)
  : World :=
  mkWorld (list_to_map files) fault [].

Definition orderFile (fixed : bool) (names : list string) : string * node :=
  (home +:+ "/env-order",
   File (match json_Marshal (mkEnvOrder fixed (Some names)) with
         | inl data => data
         | inr _ => ""
         end)).

Definition recordFile (envName value : string) : string * node :=
  (home +:+ "/" +:+ envName +:+ ".json", File (":" +:+ value)).

Example json_roundtrip :
  json_Unmarshal (match json_Marshal (mkEnvOrder true (Some ["b.json"; "a.json"])) with
                  | inl data => data
                  | inr _ => ""
                  end)
  = inl (mkEnvOrder true (Some ["b.json"; "a.json"])) /\
  json_Unmarshal "" = inr (ErrCollab "invalid ordering file") /\
  json_Unmarshal "{}" = inr (ErrCollab "invalid ordering file").
Proof. repeat split; vm_compute; reflexivity. Qed.

Example listing_example :
  fst (GetEnvironmentFiles string json_Unmarshal reader
         (world [(home, Dir); recordFile "a" "x"; recordFile "b" "y"; recordFile "c" "z";
                 orderFile false ["b.json"; "a.json"]] no_fault))
  = inl [mkFileInfo "b.json" false; mkFileInfo "a.json" false;
         mkFileInfo "c.json" false].
Proof. vm_compute. reflexivity. Qed.

(** A reader on the root directory lists the records it stores there. *)
Example root_listing_example :
  let root := mkReader "/" None (Some fill) None in
  getEnvFilePath root "x" = "/x.json" /\
  fst (GetEnvironmentFiles string json_Unmarshal root
         (world [("/", Dir); ("/x.json", File ":v"); ("/tmp", Dir);
                 ("/tmp/y.json", File ":w")] no_fault))
  = inl [mkFileInfo "x.json" false].
Proof. split; vm_compute; reflexivity. Qed.

(** [os.MkdirAll] creates the directories above the store directory, and
    a record cannot be written into a directory that does not exist. *)
Example nested_store_example :
  let w := snd (MkdirAll "/home/u/.rri" (world [] no_fault)) in
  fs w !! "/home/u/.rri" = Some Dir /\ fs w !! "/home/u" = Some Dir /\
  fs w !! "/home" = Some Dir /\
  fst (MkdirAll "/etc/passwd/x" (world [("/etc/passwd", File "")] no_fault))
    = Some (ErrSys "mkdir: not a directory") /\
  fst (WriteFile "/home/u/.rri/sub/x.json" "data" w)
    = Some (ErrNotExist "open" "/home/u/.rri/sub/x.json") /\
  fst (WriteFile "/home/u/.rri/x.json" "data" w) = None.
Proof. repeat split; vm_compute; reflexivity. Qed.

(** The operations at this instance. *)
Definition createOrRead :=
  createOrReadEnvironment string jcrypt_Marshal jcrypt_Unmarshal
    json_Marshal json_Unmarshal.
Definition read :=
  ReadEnvironment string jcrypt_Marshal jcrypt_Unmarshal
    json_Marshal json_Unmarshal.
Definition update := envOrderBringToFront string json_Marshal json_Unmarshal.
Definition loaded := loadedOrder string json_Unmarshal.
Definition listing := GetEnvironmentFiles string json_Unmarshal.
Definition orderPath : string := home +:+ "/env-order".

(** Faults: the store directory cannot be created; the ordering file
    cannot be written. *)
Definition deny_mkdir (c : syscall) : option error :=
  match c with
  | SysMkdirAll _ => Some (ErrSys "permission denied")
  | _ => None
  end.

Definition deny_order_write (c : syscall) : option error :=
  match c with
  | SysWriteFile path _ =>
      if String.eqb path orderPath then Some (ErrSys "read-only file") else None
  | _ => None
  end.

(** A fault: the existence check is refused. *)
Definition deny_stat (c : syscall) : option error :=
  match c with
  | SysStat _ => Some (ErrSys "permission denied")
  | _ => None
  end.





(** C1 at a concrete store: the store directory cannot be created.  With a handler
    that fills the record in, the operation succeeds and prints the
    warning; with a handler that gives up, its error is returned and the
    files are untouched. *)
Lemma createOrReadEnvironment_capture_witness :
  let w := world [] deny_mkdir in
  fst (isFile (getEnvFilePath reader "prod") w) = (false, None) /\
  fst (createOrRead reader "prod" "" (Some fill) w) = ("url-of-prod", None) /\
  In (EvPrint warning (ArgErrText (ErrSys "permission denied")))
     (trace (snd (createOrRead reader "prod" "" (Some fill) w))) /\
  In (EvSys (SysReadFile orderPath))
     (trace (snd (createOrRead reader "prod" "" (Some fill) w))) /\
  fst (createOrRead reader "prod" "" (Some cancel) w) =
    ("", Some (ErrCollab "interrupted")) /\
  fs (snd (createOrRead reader "prod" "" (Some cancel) w)) = fs w.
Proof.
  cbn zeta.
  assert (H : fst (isFile (getEnvFilePath reader "prod") (world [] deny_mkdir))
              = (false, None)) by (vm_compute; reflexivity).
  split; [exact H|].
  destruct (createOrReadEnvironment_capture string jcrypt_Marshal
              jcrypt_Unmarshal json_Marshal json_Unmarshal reader "prod" ""
              fill _ H) as [_ Hfill].
  destruct (Hfill "url-of-prod" eq_refl) as (H1 & _ & _ & H2 & H3 & _).
  destruct (createOrReadEnvironment_capture string jcrypt_Marshal
              jcrypt_Unmarshal json_Marshal json_Unmarshal reader "prod" ""
              cancel _ H) as [Hcancel _].
  destruct (Hcancel "" (ErrCollab "interrupted") eq_refl) as (H4 & H5 & _).
  repeat split; try assumption.
  apply H3. vm_compute. reflexivity.
Defined.

(** C10 at a concrete store: the ordering file cannot be written.  Reading an
    existing record succeeds although the bring-to-front update fails. *)
Lemma createOrReadEnvironment_drops_order_error_witness :
  let w := world [(home, Dir); recordFile "prod" "x"] deny_order_write in
  fst (createOrRead reader "prod" "" None w) = ("x", None) /\
  fst (update reader "prod" w) = Some (ErrSys "read-only file").
Proof.
  cbn zeta. split; [|vm_compute; reflexivity].
  apply (createOrReadEnvironment_drops_order_error string jcrypt_Marshal
           jcrypt_Unmarshal json_Marshal json_Unmarshal reader "prod" "" "x"
           None).
  left. split; vm_compute; reflexivity.
Defined.

(** C4 at a concrete store: a pinned order [[b, a]]; a read, a capture and another
    read leave the ordering file as it was. *)
Lemma fixed_order_is_frozen_witness :
  let w := world [(home, Dir); recordFile "a" "x"; recordFile "b" "y";
                  orderFile true ["b.json"; "a.json"]] no_fault in
  let accesses := [mkAccess "a" "" None; mkAccess "new" "" (Some fill);
                   mkAccess "b" "" None] in
  let w' := runAccesses string jcrypt_Marshal jcrypt_Unmarshal json_Marshal
              json_Unmarshal reader accesses w in
  Fixed (loaded reader w) = true /\
  fs w' !! orderPath = fs w !! orderPath /\
  loaded reader w' = mkEnvOrder true (Some ["b.json"; "a.json"]) /\
  is_Some (fs w' !! (home +:+ "/new.json")).
Proof.
  cbn zeta.
  assert (H : Fixed (loaded reader
                (world [(home, Dir); recordFile "a" "x"; recordFile "b" "y";
                        orderFile true ["b.json"; "a.json"]] no_fault)) = true)
    by (vm_compute; reflexivity).
  split; [exact H|].
  destruct (fixed_order_is_frozen string jcrypt_Marshal jcrypt_Unmarshal
              json_Marshal json_Unmarshal reader
              [mkAccess "a" "" None; mkAccess "new" "" (Some fill);
               mkAccess "b" "" None] _ H) as (H1 & H2 & _).
  split; [exact H1|]. split.
  - unfold loaded. rewrite H2. vm_compute. reflexivity.
  - vm_compute. eauto.
Defined.

(** C5 at a concrete store: an ordering file that does not parse, and the
    same store without an ordering file. *)
Lemma readEnvOrder_absorbs_errors_witness :
  let w := world [(home, Dir); recordFile "a" "x"; recordFile "b" "y";
                  (orderPath, File "{oops")] no_fault in
  let w' := world [(home, Dir); recordFile "a" "x"; recordFile "b" "y"]
                  no_fault in
  (exists err, json_Unmarshal "" = inr err) /\
  fst (readEnvOrder string json_Unmarshal reader w) =
    (mkEnvOrder false (Some []), None) /\
  fst (listing reader w) =
    inl [mkFileInfo "a.json" false; mkFileInfo "b.json" false] /\
  fst (listing reader w') = fst (listing reader w).
Proof.
  cbn zeta.
  assert (H : exists err, json_Unmarshal "" = inr err) by (eexists; reflexivity).
  split; [exact H|].
  destruct (readEnvOrder_absorbs_errors string json_Unmarshal H reader
              (world [(home, Dir); recordFile "a" "x"; recordFile "b" "y";
                      (orderPath, File "{oops")] no_fault)) as (_ & Hbad & _).
  destruct Hbad as (H1 & H2 & H3).
  - right. right. exists "{oops", (ErrCollab "invalid ordering file").
    split; vm_compute; reflexivity.
  - split; [exact H1|]. split.
    + unfold listing. rewrite H2. vm_compute. reflexivity.
    + apply H3; [left|]; vm_compute; reflexivity.
Defined.

(** C3 at a concrete store: order [[b, a, c]]; an access to [a] moves it to the
    front, and a second access changes nothing. *)
Lemma envOrderBringToFront_moves_to_front_witness :
  let w := world [(home, Dir); orderFile false ["b.json"; "a.json"; "c.json"]]
                 no_fault in
  let w1 := snd (update reader "a" w) in
  Fixed (loaded reader w) = false /\
  fst (update reader "a" w) = None /\
  loaded reader w1 = mkEnvOrder false (Some ["a.json"; "b.json"; "c.json"]) /\
  fs (snd (update reader "a" w1)) = fs w1.
Proof.
  cbn zeta.
  set (w := world [(home, Dir); orderFile false ["b.json"; "a.json"; "c.json"]]
                  no_fault).
  assert (Hfree : Fixed (loaded reader w) = false) by (vm_compute; reflexivity).
  assert (Hok : fst (update reader "a" w) = None) by (vm_compute; reflexivity).
  split; [exact Hfree|]. split; [exact Hok|].
  destruct (envOrderBringToFront_moves_to_front string json_Marshal
              json_Unmarshal reader "a" w Hfree Hok) as (_ & _ & _ & _ & Hback).
  destruct (Hback _ eq_refl) as (H1 & _ & H3);
    [vm_compute; reflexivity|reflexivity|].
  split; [|exact H3].
  unfold loaded, update. rewrite H1. vm_compute. reflexivity.
Defined.

(** Counterexample to C3 as stated: the previous order list [[a, a]] has a
    duplicate (the ordering file can be edited by hand); after an access to
    [b] the persisted list is [[b, a, a]], which still has it. *)
Lemma envOrderBringToFront_keeps_duplicates :
  let w := world [(home, Dir); orderFile false ["a.json"; "a.json"]] no_fault in
  let w1 := snd (update reader "b" w) in
  Fixed (loaded reader w) = false /\
  fst (update reader "b" w) = None /\
  entries (loaded reader w1) = ["b.json"; "a.json"; "a.json"] /\
  ~ List.NoDup (entries (loaded reader w1)).
Proof.
  cbn zeta.
  assert (H : entries (loaded reader (snd (update reader "b"
                (world [(home, Dir); orderFile false ["a.json"; "a.json"]]
                       no_fault)))) = ["b.json"; "a.json"; "a.json"])
    by (vm_compute; reflexivity).
  repeat split; try (vm_compute; reflexivity); try exact H.
  rewrite H. intros Hnd.
  apply List.NoDup_cons_iff in Hnd as [_ Hnd].
  apply List.NoDup_cons_iff in Hnd as [Hin _].
  apply Hin. by left.
Qed.

(** C6 at a concrete store: two identifiers, one path. *)
Lemma getEnvFilePath_not_injective_witness :
  dir reader <> "" /\
  "./prod" <> "prod" /\
  getEnvFilePath reader "./prod" = home +:+ "/prod.json" /\
  getEnvFilePath reader "prod" = home +:+ "/prod.json".
Proof.
  assert (H : dir reader <> "") by discriminate.
  split; [exact H|].
  destruct (getEnvFilePath_not_injective string reader "prod" H) as [H1 H2].
  split; [exact H1|].
  split; [etransitivity; [exact H2|]|]; vm_compute; reflexivity.
Defined.

(** The ordering below the sentinel at a concrete store: order list
    [[b, a]], record files [a], [b] and [c]. *)
Lemma GetEnvironmentFiles_ordered_witness :
  let w := world [(home, Dir); recordFile "a" "x"; recordFile "b" "y";
                  recordFile "c" "z"; orderFile false ["b.json"; "a.json"]]
                 no_fault in
  fst (ReadDir (dir reader) w) =
    inl [mkFileInfo "a.json" false; mkFileInfo "b.json" false;
         mkFileInfo "c.json" false; mkFileInfo "env-order" false] /\
  Order (loaded reader w) = Some ["b.json"; "a.json"] /\
  fst (listing reader w) =
    inl [mkFileInfo "b.json" false; mkFileInfo "a.json" false;
         mkFileInfo "c.json" false] /\
  fst (listing reader (snd (listing reader w))) = fst (listing reader w).
Proof.
  cbn zeta.
  set (w := world [(home, Dir); recordFile "a" "x"; recordFile "b" "y";
                   recordFile "c" "z"; orderFile false ["b.json"; "a.json"]]
                  no_fault).
  assert (Hdir : fst (ReadDir (dir reader) w) =
            inl [mkFileInfo "a.json" false; mkFileInfo "b.json" false;
                 mkFileInfo "c.json" false; mkFileInfo "env-order" false])
    by (vm_compute; reflexivity).
  assert (Horder : Order (loaded reader w) = Some ["b.json"; "a.json"])
    by (vm_compute; reflexivity).
  split; [exact Hdir|]. split; [exact Horder|].
  destruct (GetEnvironmentFiles_ordered string json_Unmarshal reader w _ _
              Hdir Horder) as (sorted & Hl & _ & _ & _ & _ & _ & _ & Hex & Hagain).
  - discriminate.
  - vm_compute. discriminate.
  - unfold listing. rewrite Hagain, Hl. split; [|reflexivity]. f_equal.
    apply (Hex (mkFileInfo "a.json" false) (mkFileInfo "b.json" false)
               (mkFileInfo "c.json" false)); try reflexivity; discriminate.
Defined.



(** C7 at a concrete store: the environment [prod.json] is captured in an
    empty store.  Its record goes to the file [prod.json.json], the order
    list gets the entry [prod.json], and the listing treats the file as
    unlisted. *)
Lemma order_entry_is_not_file_name_witness :
  let w := world [(home, Dir)] no_fault in
  let w' := snd (createOrRead reader "prod.json" "" (Some fill) w) in
  is_Some (fs w' !! (home +:+ "/prod.json.json")) /\
  fs w' !! (home +:+ "/prod.json") = None /\
  entries (loaded reader w') = ["prod.json"] /\
  fst (listing reader w') = inl [mkFileInfo "prod.json.json" false] /\
  ranked (entries (loaded reader w')) (mkFileInfo "prod.json.json" false) = false /\
  normalize "prod.json" <> Filepath.last_elem (getEnvFilePath reader "prod.json").
Proof.
  cbn zeta.
  destruct (order_entry_is_not_file_name string reader "prod"
              (mkEnvOrder false None)) as (_ & _ & _ & Hne).
  split; [vm_compute; eauto|].
  repeat split; try (vm_compute; reflexivity). exact Hne.
Defined.

(** An order list of [MaxInt32 + 2] entries, [c.json] being the last. *)
Definition longOrder : list string :=
  "x.json" :: repeat "x.json" (Z.to_nat MaxInt32) ++ ["c.json"].

(** C2 at the failing input: an order list of [MaxInt32 + 2] entries that
    ends in [c.json], and the record files [a.json] and [c.json].  The
    listed file [c.json], at index [MaxInt32 + 1], stays behind the
    unlisted file [a.json]. *)
Lemma GetEnvironmentFiles_sentinel_collides_witness :
  let a := mkFileInfo "a.json" false in
  let c := mkFileInfo "c.json" false in
  let k := S (Z.to_nat MaxInt32) in
  ~ In (Name a) longOrder /\
  nth_error longOrder k = Some (Name c) /\
  (MaxInt32 < Z.of_nat k)%Z /\
  ranked longOrder a = false /\ ranked longOrder c = true /\
  sortEnvFiles (mkEnvOrder false (Some longOrder)) [a; c] = [a; c].
Proof.
  cbn zeta.
  destruct (repeat_then_last "x.json" "c.json" "a.json" (Z.to_nat MaxInt32))
    as (Hnth & Hlast & Hnot).
  fold longOrder in Hnth, Hlast, Hnot.
  assert (Hunlisted : ~ In "a.json" longOrder)
    by (apply Hnot; discriminate).
  assert (Hbeyond : (MaxInt32 < Z.of_nat (S (Z.to_nat MaxInt32)))%Z).
  { rewrite Nat2Z.inj_succ, Z2Nat.id; [lia|]. intros H. discriminate H. }
  destruct (GetEnvironmentFiles_sentinel_collides string json_Unmarshal
              reader false longOrder (mkFileInfo "a.json" false)
              (mkFileInfo "c.json" false) (S (Z.to_nat MaxInt32))
              Hunlisted Hnth Hlast Hbeyond)
    as (Ha & Hc & _ & _ & _ & Hsort & _).
  split; [exact Hunlisted|]. split; [exact Hnth|]. split; [exact Hbeyond|].
  split; [exact Ha|]. split; [exact Hc|exact Hsort].
Defined.

(* --------------------------------------------------------------------- *)
(** ** The further properties at concrete stores *)

Lemma reader_proper : properDir string reader.
Proof.
  split; [|split]; [vm_compute; reflexivity|discriminate|discriminate].
Qed.

Definition delete_ := DeleteEnvironment string.


(** X1 at two identifiers. *)
Lemma plain_identifiers_have_own_files_witness :
  Filepath.has_sep "prod" = false /\ Filepath.has_sep "staging" = false /\
  "prod" <> "staging" /\
  getEnvFilePath reader "prod" <> getEnvFilePath reader "staging" /\
  Filepath.last_elem (getEnvFilePath reader "prod") = "prod.json".
Proof.
  assert (Hne : "prod" <> "staging") by discriminate.
  destruct (plain_identifiers_have_own_files string reader "prod" "staging"
              eq_refl eq_refl Hne) as (H1 & H2 & _).
  do 2 (split; [reflexivity|]). split; [exact Hne|].
  split; [exact H1|exact H2].
Defined.

(** X3 at the store of the reader. *)
Lemma store_layout_witness :
  properDir string reader /\ Filepath.has_sep "prod" = false /\
  getEnvFilePath reader "prod" = "/home/u/.rri/prod.json" /\
  envOrderPath reader = "/home/u/.rri/env-order".
Proof.
  destruct (store_layout string reader "prod" reader_proper eq_refl)
    as (H1 & H2 & _).
  split; [exact reader_proper|]. split; [reflexivity|].
  split; [exact H1|exact H2].
Defined.

(** X6 at a record file that was written with another key. *)
Lemma createOrReadEnvironment_decode_error_witness :
  let w := world [(home, Dir); (home +:+ "/prod.json", File "k:secret")]
                 no_fault in
  let file := getEnvFilePath reader "prod" in
  fst (isFile file w) = (true, None) /\
  fst (createOrRead reader "prod" "" (Some fill) w)
    = ("", Some (ErrCollab "wrong key")) /\
  fs (snd (createOrRead reader "prod" "" (Some fill) w)) = fs w /\
  trace (snd (createOrRead reader "prod" "" (Some fill) w))
    = [EvSys (SysStat file); EvSys (SysReadFile file)].
Proof.
  cbn zeta.
  set (w := world [(home, Dir); (home +:+ "/prod.json", File "k:secret")]
                  no_fault).
  assert (Hfile : fst (isFile (getEnvFilePath reader "prod") w) = (true, None))
    by (vm_compute; reflexivity).
  assert (Hdecode :
            fst (jcrypt_UnmarshalFromFile string jcrypt_Unmarshal
                   (getEnvFilePath reader "prod") ""
                   (keySourceOf string reader)
                   (log (EvSys (SysStat (getEnvFilePath reader "prod"))) w))
            = ("", Some (ErrCollab "wrong key")))
    by (vm_compute; reflexivity).
  destruct (createOrReadEnvironment_decode_error string jcrypt_Marshal
              jcrypt_Unmarshal json_Marshal json_Unmarshal reader "prod"
              "" "" (Some fill) w (ErrCollab "wrong key") Hfile Hdecode)
    as (H1 & H2 & H3).
  split; [exact Hfile|]. split; [exact H1|]. split; [exact H2|exact H3].
Defined.

(** X7 at a store whose existence check is refused. *)
Lemma stat_error_is_returned_witness :
  let w := world [(home, Dir); recordFile "prod" "x"] deny_stat in
  fault w (SysStat (getEnvFilePath reader "prod"))
    = Some (ErrSys "permission denied") /\
  fst (createOrRead reader "prod" "" (Some fill) w)
    = ("", Some (ErrSys "permission denied")) /\
  fst (delete_ reader "prod" w) = Some (ErrSys "permission denied") /\
  fs (snd (delete_ reader "prod" w)) = fs w.
Proof.
  cbn zeta.
  set (w := world [(home, Dir); recordFile "prod" "x"] deny_stat).
  pose proof (stat_error_is_returned string jcrypt_Marshal jcrypt_Unmarshal
                json_Marshal json_Unmarshal reader "prod" "" (Some fill) w
                (ErrSys "permission denied") eq_refl eq_refl) as H.
  cbn zeta in H. destruct H as [H1 H2].
  split; [reflexivity|]. unfold createOrRead, delete_. rewrite H1, H2.
  repeat split.
Defined.



(** X14 at an empty store: a record is captured and read back. *)
Lemma capture_then_read_witness :
  let w := world [] no_fault in
  let r := createOrRead reader "prod" "" (Some fill) w in
  properDir string reader /\ Filepath.has_sep "prod" = false /\
  fs w !! getEnvFilePath reader "prod" = None /\
  fill "prod" "" = ("url-of-prod", None) /\
  jcrypt_Marshal "url-of-prod" (keySourceOf string reader)
    = inl ":url-of-prod" /\
  fst r = ("url-of-prod", None) /\
  fs (snd r) !! getEnvFilePath reader "prod" = Some (File ":url-of-prod") /\
  fs (snd r) !! "/home/u/.rri" = Some Dir /\
  fs (snd r) !! "/home/u" = Some Dir /\
  fs (snd r) !! "/home" = Some Dir /\
  fst (read reader "prod" "" (snd r)) = ("url-of-prod", None) /\
  fst (createOrRead reader "prod" "" (Some cancel) (snd r))
    = ("url-of-prod", None).
Proof.
  cbn zeta. set (w := world [] no_fault).
  assert (Hfault : forall c, fault w c = None) by (intros c; reflexivity).
  assert (Habsent : fs w !! getEnvFilePath reader "prod" = None)
    by (vm_compute; reflexivity).
  assert (Hdir : forall a d, In a (dir reader :: ancestors (dir reader)) ->
                             fs w !! a <> Some (File d)).
  { intros a d _ H. unfold w, world in H. cbn [fs list_to_map foldr] in H.
    rewrite lookup_empty in H. discriminate H. }
  destruct (capture_then_read string jcrypt_Marshal jcrypt_Unmarshal
              json_Marshal json_Unmarshal reader "prod" "" "url-of-prod"
              fill w ":url-of-prod" reader_proper eq_refl Hfault Habsent Hdir
              eq_refl eq_refl) as (H1 & H2 & H3 & H4).
  split; [exact reader_proper|]. split; [reflexivity|].
  split; [exact Habsent|]. do 2 (split; [reflexivity|]).
  split; [exact H1|]. split; [exact H2|]. split; [exact H3|].
  do 2 (split; [vm_compute; reflexivity|]).
  split; [exact (H4 "" None)|exact (H4 "" (Some cancel))].
Defined.


(** X17 at a store with a directory named like a record file. *)
Lemma directory_is_not_a_record_witness :
  let w := world [(home, Dir); (home +:+ "/prod.json", Dir)] no_fault in
  let r := createOrRead reader "prod" "" (Some fill) w in
  fs w !! getEnvFilePath reader "prod" = Some Dir /\
  fst (read reader "prod" "" w)
    = ("", Some (Errorf "environment %q not found" "prod")) /\
  fst (delete_ reader "prod" w)
    = Some (Errorf "environment %q does not exist" "prod") /\
  fst r = ("url-of-prod", None) /\
  fs (snd r) !! getEnvFilePath reader "prod" = Some Dir /\
  exists err, In (EvPrint warning (ArgErrText err)) (trace (snd r)).
Proof.
  cbn zeta.
  set (w := world [(home, Dir); (home +:+ "/prod.json", Dir)] no_fault).
  assert (Hdir : fs w !! getEnvFilePath reader "prod" = Some Dir)
    by (vm_compute; reflexivity).
  destruct (directory_is_not_a_record string jcrypt_Marshal jcrypt_Unmarshal
              json_Marshal json_Unmarshal reader "prod" "" w Hdir eq_refl)
    as (_ & H1 & _ & H2 & _ & H3).
  destruct (H3 fill "url-of-prod" eq_refl) as (H4 & H5 & H6).
  split; [exact Hdir|]. split; [exact H1|]. split; [exact H2|].
  split; [exact H4|]. split; [exact H5|exact H6].
Defined.

(** X18 at a pinned store. *)
Lemma pinned_reads_change_nothing_witness :
  let w := world [(home, Dir); recordFile "a" "x"; recordFile "b" "y";
                  orderFile true ["a.json"; "b.json"]] no_fault in
  let r := read reader "b" "" w in
  Fixed (loaded reader w) = true /\
  fst r = ("y", None) /\
  fs (snd r) = fs w /\
  fst (listing reader (snd r))
    = inl [mkFileInfo "a.json" false; mkFileInfo "b.json" false].
Proof.
  cbn zeta.
  set (w := world [(home, Dir); recordFile "a" "x"; recordFile "b" "y";
                   orderFile true ["a.json"; "b.json"]] no_fault).
  assert (Hfixed : Fixed (loaded reader w) = true) by (vm_compute; reflexivity).
  destruct (pinned_reads_change_nothing string jcrypt_Marshal jcrypt_Unmarshal
              json_Marshal json_Unmarshal reader "b" "" None w Hfixed
              (or_introl eq_refl)) as (H1 & _ & H2).
  split; [exact Hfixed|]. split; [vm_compute; reflexivity|].
  split; [exact H1|].
  unfold listing, read, ReadEnvironment. rewrite H2. vm_compute. reflexivity.
Defined.

End Demo.
